(** * Simultaneous-sampling SAR ADC example (PSoC 6): a shallow embedding of
    [main.c] and its two SAR interrupt handlers.

    Start-up initialises the board, the debug UART and the analog blocks,
    then enables the interrupts and triggers the first scan. The firmware
    loop waits for the end-of-scan interrupts of SAR0 and SAR1,
    converts both results to volts, writes the scaled product of the two
    voltages to the CTDAC and prints both voltages on the debug UART.

    A [float32_t] value is a rational number ([Q]). Each [float32_t]
    operation of the loop rounds its exact result to the nearest IEEE 754
    binary32 value (ties to even); an overflow, and C's conversion [(int)]
    of a value whose integral part does not fit in [int], are undefined and
    give [None]. [(int)] otherwise truncates toward zero. *)

From Stdlib Require Import ZArith QArith Qpower Qround Qabs Lqa Lia List String Ascii Bool.
Import ListNotations.
Open Scope Z_scope.

(* ------------------------------------------------------------------------- *)
(** ** Single-precision arithmetic *)

Module Float32.

(** Rounding of the non-negative rational [a / b] to the nearest integer,
    ties to even. *)
Definition round_half_even (a : Z) (b : positive) : Z :=
  let f := a / Zpos b in
  let r := a mod Zpos b in
  if 2 * r <? Zpos b then f
  else if Zpos b <? 2 * r then f + 1
  else if Z.even f then f else f + 1.

(** The binade of a positive rational [a]: the [e] with
    [2 ^ e <= a < 2 ^ (e + 1)]. *)
Definition flog2 (a : Q) : Z :=
  let e0 := Z.log2 (Qnum a) - Z.log2 (Zpos (Qden a)) in
  if Qle_bool (2 ^ e0) a then e0 else e0 - 1.

(** The spacing [2 ^ fexp a] of the binary32 values around a positive [a]:
    24 significant bits, down to the subnormal spacing [2 ^ -149]. *)
Definition fexp (a : Q) : Z := Z.max (flog2 a - 23) (-149).

(** Rounding of [a >= 0] to the nearest multiple of [2 ^ q], ties to even. *)
Definition round_grid (q : Z) (a : Q) : Q :=
  let y := (a * 2 ^ (- q))%Q in
  (inject_Z (round_half_even (Qnum y) (Qden y)) * 2 ^ q)%Q.

(** Rounding of an exact result to IEEE 754 binary32, round to nearest,
    ties to even; [None] when the rounded magnitude reaches [2 ^ 128]
    (overflow). *)
Definition fl32 (x : Q) : option Q :=
  if Qnum x =? 0 then Some 0%Q else
  let a := Qabs x in
  let r := round_grid (fexp a) a in
  if Qle_bool (2 ^ 128) r then None
  else Some (if Qnum x <? 0 then (- r)%Q else r).

End Float32.

(* ------------------------------------------------------------------------- *)
(** ** Derived output: lines 179-181 of [main.c] *)

Module DacOutput.

Import Float32.

(** [#define SCALING_FACTOR 372] *)
Definition SCALING_FACTOR : Z := 372.

(** The value truncated toward zero: the fractional part is discarded. *)
Definition trunc (q : Q) : Z := Z.quot (Qnum q) (Zpos (Qden q)).

(** C's [(int)] conversion of a floating value: truncation toward zero;
    undefined ([None]) when the truncated value is not representable in a
    32-bit [int]. *)
Definition c_int (q : Q) : option Z :=
  let t := trunc q in
  if (- 2 ^ 31 <=? t) && (t <? 2 ^ 31) then Some t else None.

(** [product_result = resultV_0 * resultV_1;]
    [Cy_CTDAC_SetValue(CTDAC0, (int)(product_result*SCALING_FACTOR));]
    Both products are [float32_t] operations, each rounded to binary32 (the
    constant [SCALING_FACTOR] is converted to [float32_t] exactly).
    [compute resultV_0 resultV_1] is the argument handed to the CTDAC, or
    [None] when the computation is undefined. *)
Definition compute (resultV_0 resultV_1 : Q) : option Z :=
  match fl32 (resultV_0 * resultV_1)%Q with
  | None => None
  | Some product_result =>
      match fl32 (product_result * inject_Z SCALING_FACTOR)%Q with
      | None => None
      | Some x => c_int x
      end
  end.

(** The CTDAC code range: 12-bit, [0 .. 4095]. *)
Definition deviceMaxCode : Z := 4095.

(** The [float32_t] nearest to 3.3, the full-scale voltage:
    [13841203 * 2 ^ -22]. *)
Definition full_scale : Q := 13841203 # 4194304.

(** Rounding to the nearest integer (ties away from zero), the [round] the
    spec asks for. *)
Definition round_Q (q : Q) : Z :=
  if Qle_bool 0 q then Qfloor (q + (1 # 2)) else - Qfloor (- q + (1 # 2)).

End DacOutput.

(* ------------------------------------------------------------------------- *)
(** ** Telemetry: line 184 of [main.c] *)

Module Telemetry.

Import Float32.

Local Open Scope string_scope.
Local Open Scope Z_scope.

Definition TAB : string := String (ascii_of_nat 9) EmptyString.
Definition CRLF : string := String (ascii_of_nat 13) (String (ascii_of_nat 10) EmptyString).

(** The decimal digit [d] ([0 <= d <= 9]) as a character. *)
Definition digit_char (d : Z) : ascii := ascii_of_nat (48 + Z.to_nat d).

Definition is_digit (c : ascii) : bool :=
  Nat.leb 48 (nat_of_ascii c) && Nat.leb (nat_of_ascii c) 57.

Fixpoint all_digits (s : string) : bool :=
  match s with
  | EmptyString => true
  | String c r => is_digit c && all_digits r
  end.

(** Decimal digits of [n >= 0], most significant first; [fuel] bounds the
    number of digits. *)
Fixpoint dec_digits (fuel : nat) (n : Z) (acc : string) : string :=
  match fuel with
  | O => acc
  | S f =>
      let acc' := String (digit_char (n mod 10)) acc in
      if n <? 10 then acc' else dec_digits f (n / 10) acc'
  end.

Definition dec_string (n : Z) : string :=
  dec_digits (S (Z.to_nat (Z.log2 n))) n EmptyString.

(** The [%.2f] conversion: an optional minus sign, the integer part, a point
    and exactly two decimals of the value rounded to hundredths (to nearest,
    ties to even, as the C library does for the exact value it formats). *)
Definition fmt2 (v : Q) : string :=
  let sign := if Qnum v <? 0 then "-" else "" in
  let c := round_half_even (Z.abs (Qnum v) * 100) (Qden v) in
  sign ++ dec_string (c / 100) ++ "."
       ++ String (digit_char (c / 10 mod 10)) (String (digit_char (c mod 10)) EmptyString).

(** [printf] restricted to the conversions the firmware uses: [%.2f] takes
    the next argument; every other character is copied. *)
Fixpoint printf_fmt (fmt : string) (args : list Q) : string :=
  match fmt with
  | EmptyString => EmptyString
  | String c rest =>
      if Ascii.eqb c "%"%char then
        match rest with
        | String c1 (String c2 (String c3 rest')) =>
            if Ascii.eqb c1 "."%char && Ascii.eqb c2 "2"%char && Ascii.eqb c3 "f"%char then
              match args with
              | a :: args' => fmt2 a ++ printf_fmt rest' args'
              | [] => printf_fmt rest' []
              end
            else String c (printf_fmt rest args)
        | _ => String c (printf_fmt rest args)
        end
      else String c (printf_fmt rest args)
  end.

(** The format string of line 184:
    ["SAR0 input: %.2fV \t SAR1 input: %.2fV\r\n"]. *)
Definition telemetry_fmt : string :=
  "SAR0 input: %.2fV " ++ TAB ++ " SAR1 input: %.2fV" ++ CRLF.

(** A rendering with an optional sign, at least one integer digit, a point
    and exactly two decimal digits. *)
Definition two_decimals (s : string) : Prop :=
  exists sgn ip d1 d2,
    s = sgn ++ ip ++ "." ++ String d1 (String d2 EmptyString) /\
    (sgn = "" \/ sgn = "-") /\ ip <> "" /\ all_digits ip = true /\
    is_digit d1 = true /\ is_digit d2 = true.

End Telemetry.

(* ------------------------------------------------------------------------- *)
(** ** Main loop and SAR interrupt handlers: lines 155-186 and 296-331 *)

Module Loop.

Import DacOutput Telemetry.

Inductive sar_unit := SAR0 | SAR1.

Definition sar_unit_eqb (u v : sar_unit) : bool :=
  match u, v with SAR0, SAR0 | SAR1, SAR1 => true | _, _ => false end.

(** Interrupt masks of the SAR driver header ([cy_sar.h]): end of scan is
    bit 0; [CY_SAR_INTR] is the union of all SAR interrupt sources. *)
Definition CY_SAR_INTR_EOS : Z := 1.
Definition CY_SAR_INTR : Z := 247.

(** Program points of the [for (;;)] loop of [main]:
    - [Drain]: [while(cyhal_uart_is_tx_active(...) == true);]
    - [Check]: the test [!(sar0_isr_set & sar1_isr_set)]
    - [Sleep]: [Cy_SysPm_CpuEnterSleep(CY_SYSPM_WAIT_FOR_INTERRUPT);]
    - [Clear0], [Clear1]: [sar0_isr_set = false;], [sar1_isr_set = false;]
    - [Process]: read both results, convert, write the CTDAC, [printf]. *)
Inductive mpc := Drain | Check | Sleep | Clear0 | Clear1 | Process.

Record state := mkState {
  pc : mpc;
  sar0_isr_set : bool;
  sar1_isr_set : bool;
  sar0_intr : Z;            (* SAR0 INTR register *)
  sar1_intr : Z;            (* SAR1 INTR register *)
  sar0_result : Z;          (* SAR0 channel 0 result register *)
  sar1_result : Z;          (* SAR1 channel 0 result register *)
  uart_tx_active : bool;
  ctdac_value : option Z;   (* Some c: last argument of Cy_CTDAC_SetValue;
                               None: none defined (no call yet, or the
                               argument's (int) conversion was undefined) *)
  uart_out : list string    (* lines printed by the loop *)
}.

Definition flag (u : sar_unit) (s : state) : bool :=
  match u with SAR0 => sar0_isr_set s | SAR1 => sar1_isr_set s end.

Definition intr (u : sar_unit) (s : state) : Z :=
  match u with SAR0 => sar0_intr s | SAR1 => sar1_intr s end.

Definition set_pc (p : mpc) (s : state) : state :=
  mkState p (sar0_isr_set s) (sar1_isr_set s) (sar0_intr s) (sar1_intr s)
    (sar0_result s) (sar1_result s) (uart_tx_active s) (ctdac_value s) (uart_out s).

Definition set_flag (u : sar_unit) (b : bool) (s : state) : state :=
  match u with
  | SAR0 => mkState (pc s) b (sar1_isr_set s) (sar0_intr s) (sar1_intr s)
      (sar0_result s) (sar1_result s) (uart_tx_active s) (ctdac_value s) (uart_out s)
  | SAR1 => mkState (pc s) (sar0_isr_set s) b (sar0_intr s) (sar1_intr s)
      (sar0_result s) (sar1_result s) (uart_tx_active s) (ctdac_value s) (uart_out s)
  end.

Definition set_intr (u : sar_unit) (i : Z) (s : state) : state :=
  match u with
  | SAR0 => mkState (pc s) (sar0_isr_set s) (sar1_isr_set s) i (sar1_intr s)
      (sar0_result s) (sar1_result s) (uart_tx_active s) (ctdac_value s) (uart_out s)
  | SAR1 => mkState (pc s) (sar0_isr_set s) (sar1_isr_set s) (sar0_intr s) i
      (sar0_result s) (sar1_result s) (uart_tx_active s) (ctdac_value s) (uart_out s)
  end.

Definition set_tx_active (b : bool) (s : state) : state :=
  mkState (pc s) (sar0_isr_set s) (sar1_isr_set s) (sar0_intr s) (sar1_intr s)
    (sar0_result s) (sar1_result s) b (ctdac_value s) (uart_out s).

(** [Cy_SAR_GetInterruptStatus]: reads the INTR register. *)
Definition Cy_SAR_GetInterruptStatus (u : sar_unit) (s : state) : Z := intr u s.

(** [Cy_SAR_ClearInterrupt]: INTR is write-one-to-clear. *)
Definition Cy_SAR_ClearInterrupt (u : sar_unit) (mask : Z) (s : state) : state :=
  set_intr u (Z.land (intr u s) (Z.lnot mask)) s.

(** [void sar0_interrupt(void)] *)
Definition sar0_interrupt (s : state) : state :=
  let s1 := if negb (Z.land (Cy_SAR_GetInterruptStatus SAR0 s) CY_SAR_INTR_EOS =? 0)
            then set_flag SAR0 true s else s in
  Cy_SAR_ClearInterrupt SAR0 CY_SAR_INTR s1.

(** [void sar1_interrupt(void)] *)
Definition sar1_interrupt (s : state) : state :=
  let s1 := if negb (Z.land (Cy_SAR_GetInterruptStatus SAR1 s) CY_SAR_INTR_EOS =? 0)
            then set_flag SAR1 true s else s in
  Cy_SAR_ClearInterrupt SAR1 CY_SAR_INTR s1.

Definition handler (u : sar_unit) : state -> state :=
  match u with SAR0 => sar0_interrupt | SAR1 => sar1_interrupt end.

(** End of scan in hardware: the result register is loaded and the EOS bit
    of INTR is raised. *)
Definition hw_end_of_scan (u : sar_unit) (r : Z) (s : state) : state :=
  let s1 := set_intr u (Z.lor (intr u s) CY_SAR_INTR_EOS) s in
  match u with
  | SAR0 => mkState (pc s1) (sar0_isr_set s1) (sar1_isr_set s1) (sar0_intr s1) (sar1_intr s1)
      r (sar1_result s1) (uart_tx_active s1) (ctdac_value s1) (uart_out s1)
  | SAR1 => mkState (pc s1) (sar0_isr_set s1) (sar1_isr_set s1) (sar0_intr s1) (sar1_intr s1)
      (sar0_result s1) r (uart_tx_active s1) (ctdac_value s1) (uart_out s1)
  end.

Section MainLoop.

(** [Cy_SAR_CountsTo_Volts] of the SAR driver: the calibrated conversion of
    a result to volts, configured for each SAR at start-up; the loop only
    uses it, so it is a parameter here. *)
Variable Cy_SAR_CountsTo_Volts : sar_unit -> Z -> Q.

(** One step of the main loop at its current program point. The two reads
    of the gate test are taken together: a handler run between them can only
    raise a flag, which gives the same outcome as running it before or after
    the test. *)
Definition main_step (s : state) : state :=
  match pc s with
  | Drain => if uart_tx_active s then s else set_pc Check s
  | Check => if sar0_isr_set s && sar1_isr_set s then set_pc Clear0 s else set_pc Sleep s
  | Sleep => set_pc Check s
  | Clear0 => set_pc Clear1 (set_flag SAR0 false s)
  | Clear1 => set_pc Process (set_flag SAR1 false s)
  | Process =>
      let sar_result0 := sar0_result s in
      let sar_result1 := sar1_result s in
      let resultV_0 := Cy_SAR_CountsTo_Volts SAR0 sar_result0 in
      let resultV_1 := Cy_SAR_CountsTo_Volts SAR1 sar_result1 in
      mkState Drain (sar0_isr_set s) (sar1_isr_set s) (sar0_intr s) (sar1_intr s)
        (sar0_result s) (sar1_result s) true
        (compute resultV_0 resultV_1)
        (uart_out s ++ [printf_fmt telemetry_fmt [resultV_0; resultV_1]])
  end.


(** Events of the whole system: a step of the main loop, an end of scan in
    hardware (with the new result), the run of a SAR interrupt handler, the
    end of the UART transfer. *)
Inductive event := EMain | EEos (u : sar_unit) (r : Z) | EIsr (u : sar_unit) | ETxDone.

(** What a step makes observable: the gate opening (the test found both
    flags set), a handler setting its flag, a clearing store of the loop. *)
Inductive obs := OOpen | OSet (u : sar_unit) | OClear (u : sar_unit).

Definition main_obs (s : state) : list obs :=
  match pc s with
  | Check => if sar0_isr_set s && sar1_isr_set s then [OOpen] else []
  | Clear0 => [OClear SAR0]
  | Clear1 => [OClear SAR1]
  | _ => []
  end.

(** A handler runs only while its interrupt is pending: a source of
    [CY_SAR_INTR] (the mask set by [init_analog_resources]) is raised. *)
Definition step (e : event) (s : state) : option (state * list obs) :=
  match e with
  | EMain => Some (main_step s, main_obs s)
  | EEos u r => Some (hw_end_of_scan u r s, [])
  | EIsr u =>
      if Z.land (intr u s) CY_SAR_INTR =? 0 then None
      else Some (handler u s,
                 if Z.land (intr u s) CY_SAR_INTR_EOS =? 0 then [] else [OSet u])
  | ETxDone => if uart_tx_active s then Some (set_tx_active false s, []) else None
  end.

(** The same system with the SAR interrupts held pending from the gate test
    to the second clearing store, as a critical section would do. *)
Definition step_masked (e : event) (s : state) : option (state * list obs) :=
  match e, pc s with
  | EIsr _, (Clear0 | Clear1) => None
  | _, _ => step e s
  end.

End MainLoop.


(** Runs a trace of events; [None] when an event is not enabled. *)
Fixpoint exec (stp : event -> state -> option (state * list obs))
    (tr : list event) (s : state) : option (state * list obs) :=
  match tr with
  | [] => Some (s, [])
  | e :: tr' =>
      match stp e s with
      | None => None
      | Some (s1, o1) =>
          match exec stp tr' s1 with
          | None => None
          | Some (s2, o2) => Some (s2, o1 ++ o2)
          end
      end
  end.

(** Whether unit [u]'s handler has set its flag since the last gate opening. *)
Definition since_step (u : sar_unit) (b : bool) (o : obs) : bool :=
  match o with
  | OOpen => false
  | OSet v => if sar_unit_eqb u v then true else b
  | OClear _ => b
  end.

Definition set_since (u : sar_unit) (h : list obs) : bool :=
  fold_left (since_step u) h false.

(** Whether unit [u]'s handler, run while the loop is at [p], runs between
    a gate test that opened the gate and the loop's clearing store of [u]'s
    flag: [sar0_isr_set] is cleared first, [sar1_isr_set] second. *)
Definition in_clear_window (u : sar_unit) (p : mpc) : bool :=
  match u, p with
  | SAR0, Clear0 => true
  | SAR1, (Clear0 | Clear1) => true
  | _, _ => false
  end.

(** Whether, in the observations [h], a gate opening comes before the first
    clearing store of [u]'s flag (true when there is no such store). *)
Fixpoint open_before_clear (u : sar_unit) (h : list obs) : bool :=
  match h with
  | [] => true
  | OOpen :: _ => true
  | OClear v :: h' => if sar_unit_eqb u v then false else open_before_clear u h'
  | OSet _ :: h' => open_before_clear u h'
  end.

(** The moves of the loop between program points, with the condition under
    which each is taken. *)
Definition loop_edge (s s' : state) : Prop :=
  match pc s, pc s' with
  | Drain, Check => uart_tx_active s = false
  | Check, Clear0 => sar0_isr_set s && sar1_isr_set s = true
  | Check, Sleep => sar0_isr_set s && sar1_isr_set s = false
  | Sleep, Check | Clear0, Clear1 | Clear1, Process | Process, Drain => True
  | _, _ => False
  end.

(** The flags against the signals observed since the last gate opening:
    outside the clearing stores each flag records whether its handler has
    set it since then. *)
Definition gate_inv (s : state) (h : list obs) : Prop :=
  match pc s with
  | Clear0 => sar0_isr_set s = true /\ sar1_isr_set s = true /\
              set_since SAR0 h = false /\ set_since SAR1 h = false
  | Clear1 => sar0_isr_set s = false /\ sar1_isr_set s = true /\
              set_since SAR0 h = false /\ set_since SAR1 h = false
  | _ => sar0_isr_set s = set_since SAR0 h /\ sar1_isr_set s = set_since SAR1 h
  end.

(** The state when the loop is entered: flags false (their initialisers), the
    banner possibly still being transmitted. *)
Definition init_state : state :=
  mkState Drain false false 0 0 0 0 true None [].

(** A calibration for concrete runs: 12-bit results, 3.3 V full scale. *)
Definition lin_cal (u : sar_unit) (c : Z) : Q := (inject_Z c * (33 # 40950))%Q.

(** Concrete runs from [init_state]. Both units complete, the loop leaves
    the drain loop and finds both flags set. *)
Definition first_pair_trace : list event :=
  [EEos SAR0 1241; EIsr SAR0; EEos SAR1 2482; EIsr SAR1; ETxDone; EMain].

(** The gate opens; before the clearing stores run, SAR1 completes again and
    its handler runs; the loop processes, drains and returns to the gate
    test; SAR0 completes. *)
Definition sar1_in_clear_window_trace : list event :=
  first_pair_trace ++
  [EMain; EEos SAR1 1000; EIsr SAR1; EMain; EMain; EMain; ETxDone; EMain;
   EEos SAR0 1200; EIsr SAR0].

(** The gate opens; before the clearing stores run, SAR0 completes again and
    its handler runs; the loop processes, drains and returns to the gate
    test. *)
Definition sar0_in_clear_window_trace : list event :=
  first_pair_trace ++
  [EMain; EEos SAR0 1000; EIsr SAR0; EMain; EMain; EMain; ETxDone; EMain].

End Loop.

(* ------------------------------------------------------------------------- *)
(** ** Reading back a [%.2f] rendering *)

Module TelemetryRead.

Import Telemetry.
Local Open Scope Z_scope.

Definition digit_value (c : ascii) : Z := Z.of_nat (nat_of_ascii c) - 48.

(** The value of a string of decimal digits. *)
Fixpoint digits_value (s : string) : Z :=
  match s with
  | EmptyString => 0
  | String c r => digit_value c * 10 ^ Z.of_nat (String.length r) + digits_value r
  end.

(** Splits off the longest prefix of decimal digits. *)
Fixpoint span_digits (s : string) : string * string :=
  match s with
  | String c r =>
      if is_digit c then let (ip, rest) := span_digits r in (String c ip, rest)
      else (EmptyString, s)
  | EmptyString => (EmptyString, EmptyString)
  end.

(** Reads an unsigned [d+.dd] rendering as a number of hundredths. *)
Definition read_unsigned2 (s : string) : option Q :=
  let (ip, rest) := span_digits s in
  match ip, rest with
  | String _ _, String p (String d1 (String d2 EmptyString)) =>
      if Ascii.eqb p "."%char && is_digit d1 && is_digit d2 then
        Some ((digits_value ip * 100 + digit_value d1 * 10 + digit_value d2) # 100)%Q
      else None
  | _, _ => None
  end.

(** Reads an optionally signed [-d+.dd] rendering. *)
Definition read_fixed2 (s : string) : option Q :=
  match s with
  | String c r =>
      if Ascii.eqb c "-"%char then option_map Qopp (read_unsigned2 r) else read_unsigned2 s
  | EmptyString => None
  end.

End TelemetryRead.

(* ------------------------------------------------------------------------- *)
(** ** Start-up: lines 111-153 of [main] and [init_analog_resources] *)

Module Startup.

Import Loop.
Local Open Scope string_scope.

(** The driver calls of start-up, in the order [main] makes them. *)
Inductive call :=
  | Cybsp_init
  | Cy_retarget_io_init
  | Printf (text : string)
  | Cy_SysAnalog_Init
  | Cy_SysAnalog_Enable
  | Cy_SAR_CommonInit
  | Cy_SAR_Init (u : sar_unit)
  | Cy_SAR_Enable (u : sar_unit)
  | Cy_SAR_SetInterruptMask (u : sar_unit) (mask : Z)
  | Cy_SysInt_Init (u : sar_unit)
  | NVIC_EnableIRQ (u : sar_unit)
  | Cy_CTB_OpampInit
  | Cy_CTDAC_Init
  | Cy_CTDAC_Enable
  | Cy_CTB_Enable
  | Cy_TCPWM_Counter_Init
  | Cy_TCPWM_Counter_Enable
  | Enable_irq                       (* __enable_irq() *)
  | Cy_TCPWM_TriggerStart_Single.

Definition ESC : string := String (ascii_of_nat 27) EmptyString.
Definition LF : string := String (ascii_of_nat 10) EmptyString.
Definition dashes : string :=
  "-----------------------------------------------------------".

(** The six [printf] calls of the banner (lines 139-144). *)
Definition banner : list string :=
  [ESC ++ "[2J" ++ ESC ++ "[;H";
   dashes ++ Telemetry.CRLF;
   "PSoC 6 MCU: Simultaneous Sampling SAR ADCs " ++ Telemetry.CRLF;
   dashes ++ Telemetry.CRLF ++ LF;
   "Provide input voltages at pin P10.0 and P10.2 and observe " ++ Telemetry.CRLF;
   "the scaled product of inputs on pin P9.2." ++ Telemetry.CRLF ++ LF].

(** Start-up code threads the log of driver calls made so far; [None] is a
    halt. *)
Definition M (A : Type) : Type := list call -> option A * list call.

Definition ret {A} (a : A) : M A := fun l => (Some a, l).

Definition bind {A B} (m : M A) (k : A -> M B) : M B :=
  fun l => match m l with
           | (Some a, l') => k a l'
           | (None, l') => (None, l')
           end.

Local Notation "x <- m ;; k" := (bind m (fun x => k)) (at level 61, m at next level, right associativity).
Local Notation "m ;;; k" := (bind m (fun _ => k)) (at level 61, right associativity).

Section Run.

(** Whether each driver call reports success ([CY_RSLT_SUCCESS] and the
    drivers' [..._SUCCESS] codes). *)
Variable ok : call -> bool.

(** Whether the build defines [NDEBUG], which turns [CY_ASSERT] into a
    no-op; otherwise a failed [CY_ASSERT] halts the CPU. *)
Variable ndebug : bool.

Definition invoke (c : call) : M bool := fun l => (Some (ok c), (l ++ [c])%list).

Definition CY_ASSERT (b : bool) : M unit :=
  fun l => if b || ndebug then (Some tt, l) else (None, l).

(** [result = f(...); if (SUCCESS != result) { CY_ASSERT(0); }] *)
Definition checked (c : call) : M unit :=
  r <- invoke c ;; if r then ret tt else CY_ASSERT false.

(** A call whose result is not looked at ([void] or cast to [void]). *)
Definition unchecked (c : call) : M unit := _ <- invoke c ;; ret tt.

Fixpoint printf_all (ls : list string) : M unit :=
  match ls with
  | [] => ret tt
  | t :: r => unchecked (Printf t) ;;; printf_all r
  end.

(** [void init_analog_resources(void)] *)
Definition init_analog_resources : M unit :=
  checked Cy_SysAnalog_Init ;;;
  unchecked Cy_SysAnalog_Enable ;;;
  checked Cy_SAR_CommonInit ;;;
  checked (Cy_SAR_Init SAR0) ;;;
  checked (Cy_SAR_Init SAR1) ;;;
  unchecked (Cy_SAR_Enable SAR0) ;;;
  unchecked (Cy_SAR_Enable SAR1) ;;;
  unchecked (Cy_SAR_SetInterruptMask SAR0 CY_SAR_INTR) ;;;
  unchecked (Cy_SAR_SetInterruptMask SAR1 CY_SAR_INTR) ;;;
  unchecked (Cy_SysInt_Init SAR0) ;;;
  unchecked (Cy_SysInt_Init SAR1) ;;;
  unchecked (NVIC_EnableIRQ SAR0) ;;;
  unchecked (NVIC_EnableIRQ SAR1) ;;;
  checked Cy_CTB_OpampInit ;;;
  checked Cy_CTDAC_Init ;;;
  unchecked Cy_CTDAC_Enable ;;;
  unchecked Cy_CTB_Enable ;;;
  checked Cy_TCPWM_Counter_Init ;;;
  unchecked Cy_TCPWM_Counter_Enable.

(** [main] up to the [for (;;)] loop. *)
Definition main_startup : M unit :=
  checked Cybsp_init ;;;
  checked Cy_retarget_io_init ;;;
  printf_all banner ;;;
  init_analog_resources ;;;
  unchecked Enable_irq ;;;
  unchecked Cy_TCPWM_TriggerStart_Single.

End Run.

(** The calls whose result start-up compares with success. *)
Definition checked_calls : list call :=
  [Cybsp_init; Cy_retarget_io_init; Cy_SysAnalog_Init; Cy_SAR_CommonInit;
   Cy_SAR_Init SAR0; Cy_SAR_Init SAR1; Cy_CTB_OpampInit; Cy_CTDAC_Init;
   Cy_TCPWM_Counter_Init].

(** The calls of a start-up in which every call succeeds. *)
Definition full_log : list call := snd (main_startup (fun _ => true) false []).

End Startup.

(** The number of loop iterations begun and not yet finished: one from the
    gate opening until the processing step has run. *)
Definition in_progress (p : Loop.mpc) : nat :=
  match p with Loop.Clear0 | Loop.Clear1 | Loop.Process => 1%nat | _ => 0%nat end.

Definition is_open (o : Loop.obs) : bool :=
  match o with Loop.OOpen => true | _ => false end.

(* ========================================================================= *)
(** * Properties of single-precision rounding *)

Import Float32.

Lemma two_nz : ~ (2 == 0)%Q.
Proof. discriminate. Qed.

Lemma pow2_nonneg (k : Z) : (0 <= 2 ^ k)%Q.
Proof. apply Qpower_0_le. discriminate. Qed.

Lemma pow2_plus (a b : Z) : (2 ^ (a + b) == 2 ^ a * 2 ^ b)%Q.
Proof. apply Qpower_plus. exact two_nz. Qed.

Lemma pow2_le (a b : Z) : a <= b -> (2 ^ a <= 2 ^ b)%Q.
Proof. intro H. apply Qpower_le_compat_l; [exact H | discriminate]. Qed.

Lemma pow2_Z (n : Z) : 0 <= n -> (2 ^ n == inject_Z (2 ^ n))%Q.
Proof. intro H. symmetry. apply (Zpower_Qpower 2 n H). Qed.

Lemma pow2_split (a b : Z) : 0 <= a -> 0 <= b ->
  (2 ^ (a - b) == inject_Z (2 ^ a) / inject_Z (2 ^ b))%Q.
Proof.
  intros Ha Hb. unfold Z.sub. rewrite pow2_plus, Qpower_opp, !pow2_Z by lia.
  reflexivity.
Qed.

Lemma half_pow2 (q : Z) : ((1 # 2) * 2 ^ q == 2 ^ (q - 1))%Q.
Proof.
  unfold Z.sub. rewrite pow2_plus. change (2 ^ (-1))%Q with (1 # 2)%Q. apply Qmult_comm.
Qed.

Lemma flog2_lower (a : Q) : (0 < a)%Q -> (2 ^ flog2 a <= a)%Q.
Proof.
  intro Ha. unfold flog2.
  destruct (Qle_bool (2 ^ (Z.log2 (Qnum a) - Z.log2 (Zpos (Qden a)))) a) eqn:E.
  - apply Qle_bool_iff. exact E.
  - destruct a as [n d]. cbn [Qnum Qden] in *.
    assert (Hn : 0 < n) by (unfold Qlt in Ha; simpl in Ha; lia).
    destruct (Z.log2_spec n Hn) as [Hn1 _].
    destruct (Z.log2_spec (Zpos d) ltac:(lia)) as [_ Hd2].
    pose proof (Z.log2_nonneg n). pose proof (Z.log2_nonneg (Zpos d)).
    replace (Z.log2 n - Z.log2 (Zpos d) - 1)
      with (Z.log2 n - Z.succ (Z.log2 (Zpos d))) by lia.
    rewrite pow2_split by lia.
    pose proof (Z.pow_pos_nonneg 2 (Z.succ (Z.log2 (Zpos d))) ltac:(lia) ltac:(lia)).
    apply Qle_shift_div_r.
    + change 0%Q with (inject_Z 0). rewrite <- Zlt_Qlt. lia.
    + unfold Qle, Qmult, inject_Z; cbn [Qnum Qden]. nia.
Qed.

Lemma round_half_even_spec (a : Z) (b : positive) :
  0 <= a ->
  0 <= round_half_even a b /\ Z.abs (2 * (a - Zpos b * round_half_even a b)) <= Zpos b.
Proof.
  intro Ha. unfold round_half_even.
  pose proof (Z.div_mod a (Zpos b) ltac:(lia)) as Hd.
  pose proof (Z.mod_pos_bound a (Zpos b) ltac:(lia)) as Hm.
  pose proof (Z.div_pos a (Zpos b) Ha ltac:(lia)) as Hf.
  set (f := a / Zpos b) in *. set (r := a mod Zpos b) in *.
  destruct (2 * r <? Zpos b) eqn:L1; [apply Z.ltb_lt in L1 | apply Z.ltb_ge in L1].
  - cbv beta iota. split; [lia|]. rewrite Z.abs_le. nia.
  - destruct (Zpos b <? 2 * r) eqn:L2; [apply Z.ltb_lt in L2 | apply Z.ltb_ge in L2];
      cbv beta iota.
    + split; [lia|]. rewrite Z.abs_le. nia.
    + destruct (Z.even f); cbv beta iota; (split; [lia|]; rewrite Z.abs_le; nia).
Qed.

(** Rounding a non-negative rational on the grid of spacing [2 ^ q]: the
    result is within half a spacing. *)
Lemma round_scaled (a : Q) (q : Z) : (0 <= a)%Q ->
  (0 <= round_grid q a)%Q /\ (Qabs (round_grid q a - a) <= 2 ^ (q - 1))%Q.
Proof.
  intros Ha. unfold round_grid.
  set (y := (a * 2 ^ (- q))%Q).
  set (r := (inject_Z (round_half_even (Qnum y) (Qden y)) * 2 ^ q)%Q).
  assert (Hy : (0 <= y)%Q) by (apply Qmult_le_0_compat; [exact Ha | apply pow2_nonneg]).
  assert (Hn : 0 <= Qnum y).
  { clear - Hy. clearbody y. destruct y as [n d].
    unfold Qle in Hy. simpl in Hy. rewrite Z.mul_1_r in Hy. exact Hy. }
  destruct (round_half_even_spec (Qnum y) (Qden y) Hn) as [Hm Herr].
  set (m := round_half_even (Qnum y) (Qden y)) in *.
  assert (Hmy : (Qabs (inject_Z m - y) <= 1 # 2)%Q).
  { clearbody m. destruct y as [n d]. cbn [Qnum Qden] in *.
    unfold Qminus, Qplus, Qopp, inject_Z, Qle. simpl. lia. }
  assert (Hya : (y * 2 ^ q == a)%Q).
  { unfold y. rewrite <- Qmult_assoc, <- pow2_plus.
    replace (- q + q) with 0 by lia. apply Qmult_1_r. }
  split.
  - unfold r. apply Qmult_le_0_compat; [|apply pow2_nonneg].
    change 0%Q with (inject_Z 0). rewrite <- Zle_Qle. exact Hm.
  - unfold r. rewrite <- Hya.
    setoid_replace (inject_Z m * 2 ^ q - y * 2 ^ q)%Q
      with ((inject_Z m - y) * 2 ^ q)%Q by ring.
    rewrite Qabs_Qmult, (Qabs_pos (2 ^ q)) by apply pow2_nonneg.
    rewrite <- half_pow2. apply Qmult_le_compat_r; [exact Hmy | apply pow2_nonneg].
Qed.

(** The error of [fl32]: relative [2 ^ -24] (half a unit in the last of 24
    bits) plus, in the subnormal range, absolute [2 ^ -150]; the sign is
    kept; only a magnitude of at least [2 ^ 127] can overflow. *)
Lemma fl32_spec (x : Q) :
  match fl32 x with
  | Some r => (Qabs (r - x) <= Qabs x * 2 ^ (-24) + 2 ^ (-150))%Q
              /\ ((0 <= x)%Q -> (0 <= r)%Q) /\ ((x <= 0)%Q -> (r <= 0)%Q)
  | None => (2 ^ 127 <= Qabs x)%Q
  end.
Proof.
  unfold fl32. destruct (Qnum x =? 0) eqn:Z0.
  - apply Z.eqb_eq in Z0.
    assert (Hx : (x == 0)%Q) by (destruct x; unfold Qeq; simpl in *; lia).
    rewrite Hx. split; [|split; intros; apply Qle_refl].
    change (Qabs (0 - 0)) with 0%Q.
    apply (Qle_trans _ (0 + 0)); [apply Qle_refl|].
    apply Qplus_le_compat; [apply Qmult_le_0_compat; [apply Qabs_nonneg|] | ];
      apply pow2_nonneg.
  - apply Z.eqb_neq in Z0. cbv zeta.
    assert (Ha : (0 < Qabs x)%Q).
    { destruct x as [n d]. unfold Qabs, Qlt. simpl in *. lia. }
    set (a := Qabs x) in *.
    pose proof (flog2_lower a Ha) as Hlow.
    set (e := flog2 a) in *.
    destruct (round_scaled a (fexp a) (Qlt_le_weak _ _ Ha)) as [Hr Herr].
    unfold fexp in *. fold e in Hr, Herr |- *.
    set (q := Z.max (e - 23) (-149)) in *.
    set (r := round_grid q a) in *.
    assert (Hb : (2 ^ (q - 1) <= a * 2 ^ (-24) + 2 ^ (-150))%Q /\
                 ((2 ^ (q - 1) <= a)%Q \/ q - 1 = -150)).
    { unfold q. destruct (Z.max_spec (e - 23) (-149)) as [[_ ->] | [_ ->]].
      - split; [|right; reflexivity].
        rewrite <- (Qplus_0_l (2 ^ (-149 - 1))) at 1.
        apply Qplus_le_compat; [|apply Qle_refl].
        apply Qmult_le_0_compat; [apply Qlt_le_weak, Ha | apply pow2_nonneg].
      - replace (e - 23 - 1) with (e + -24) by lia. rewrite pow2_plus. split.
        + rewrite <- (Qplus_0_r (2 ^ e * 2 ^ (-24))).
          apply Qplus_le_compat; [|apply pow2_nonneg].
          apply Qmult_le_compat_r; [exact Hlow | apply pow2_nonneg].
        + left. apply (Qle_trans _ (2 ^ e)); [|exact Hlow].
          rewrite <- (Qmult_1_r (2 ^ e)) at 2.
          rewrite !(Qmult_comm (2 ^ e)).
          apply Qmult_le_compat_r; [|apply pow2_nonneg].
          change 1%Q with (2 ^ 0)%Q. apply pow2_le. lia. }
    destruct Hb as [Hb1 Hb2].
    destruct (Qle_bool (2 ^ 128) r) eqn:Ov.
    + apply Qle_bool_iff in Ov.
      assert (H128 : (2 ^ 128 == 2 * 2 ^ 127)%Q)
        by (change 128 with (1 + 127); rewrite pow2_plus; reflexivity).
      assert (Hra : (r <= a + 2 ^ (q - 1))%Q).
      { apply Qabs_Qle_condition in Herr. destruct Herr. lra. }
      destruct Hb2 as [Hb2 | Hb2].
      * lra.
      * rewrite Hb2 in Hra.
        assert (Hs : (2 ^ (-150) <= 2 ^ 127)%Q) by (apply pow2_le; lia). lra.
    + destruct (Qnum x <? 0) eqn:Sg; [apply Z.ltb_lt in Sg | apply Z.ltb_ge in Sg].
      * assert (Hxa : (a == - x)%Q).
        { unfold a. apply Qabs_neg. destruct x as [n d]. unfold Qle. simpl in *. lia. }
        assert (Hxn : (x < 0)%Q) by (destruct x as [n d]; unfold Qlt; simpl in *; lia).
        split; [|split; intro; lra].
        setoid_replace (- r - x)%Q with (- (r - a))%Q by (rewrite Hxa; ring).
        rewrite Qabs_opp. eapply Qle_trans; [exact Herr | exact Hb1].
      * assert (Hxa : (a == x)%Q).
        { unfold a. apply Qabs_pos. destruct x as [n d]. unfold Qle. simpl in *. lia. }
        assert (Hxn : (0 < x)%Q) by (destruct x as [n d]; unfold Qlt; simpl in *; lia).
        split; [|split; intro; lra].
        rewrite <- Hxa. eapply Qle_trans; [exact Herr | exact Hb1].
Qed.

Lemma fl32_defined (x : Q) : (Qabs x < 2 ^ 127)%Q -> exists r, fl32 x = Some r.
Proof.
  intro H. pose proof (fl32_spec x) as S.
  destruct (fl32 x) as [r|]; [eauto|]. exfalso. apply (Qlt_not_le _ _ H S).
Qed.

Lemma fl32_error (x r : Q) : fl32 x = Some r ->
  (Qabs (r - x) <= Qabs x * 2 ^ (-24) + 2 ^ (-150))%Q.
Proof. intro H. pose proof (fl32_spec x) as S. rewrite H in S. apply S. Qed.

Lemma fl32_nonneg (x r : Q) : fl32 x = Some r -> (0 <= x)%Q -> (0 <= r)%Q.
Proof. intro H. pose proof (fl32_spec x) as S. rewrite H in S. apply S. Qed.

(** A bound on the result of [fl32] for a non-negative [x] below [m]. *)
Lemma fl32_upper (x r m : Q) : fl32 x = Some r -> (0 <= x <= m)%Q ->
  (r <= m + m * 2 ^ (-24) + 2 ^ (-150))%Q.
Proof.
  intros H [H0 H1]. pose proof (fl32_error x r H) as E.
  rewrite (Qabs_pos x H0) in E. apply Qabs_Qle_condition in E. destruct E as [_ E].
  assert (x * 2 ^ (-24) <= m * 2 ^ (-24))%Q
    by (apply Qmult_le_compat_r; [exact H1 | apply pow2_nonneg]).
  lra.
Qed.

Lemma round_half_even_int (k : Z) : round_half_even k 1 = k.
Proof. unfold round_half_even. rewrite Z.div_1_r, Z.mod_1_r. reflexivity. Qed.

(** A tie [k + 1/2] goes to the even one of [k] and [k + 1]. *)
Lemma round_half_even_tie (n : Z) (d : positive) (k : Z) :
  2 * n = (2 * k + 1) * Zpos d -> round_half_even n d = if Z.even k then k else k + 1.
Proof.
  intro H.
  assert (Hd : exists h, Zpos d = 2 * h).
  { exists (Zpos d / 2). pose proof (Z.div_mod (Zpos d) 2 ltac:(lia)).
    pose proof (Z.mod_pos_bound (Zpos d) 2 ltac:(lia)).
    assert (Zpos d mod 2 = 0 \/ Zpos d mod 2 = 1) as [E|E] by lia; [lia|].
    exfalso. set (h := Zpos d / 2) in *. nia. }
  destruct Hd as [h Hh].
  assert (Hn : n = k * Zpos d + h) by nia.
  assert (Hq : n / Zpos d = k) by (symmetry; apply Z.div_unique with h; lia).
  assert (Hr : n mod Zpos d = h) by (symmetry; apply Z.mod_unique with k; lia).
  unfold round_half_even. rewrite Hq, Hr.
  replace (2 * h <? Zpos d) with false by (symmetry; apply Z.ltb_ge; lia).
  replace (Zpos d <? 2 * h) with false by (symmetry; apply Z.ltb_ge; lia).
  reflexivity.
Qed.

Lemma round_half_even_mono (n1 n2 : Z) (d1 d2 : positive) :
  0 <= n1 -> 0 <= n2 -> n1 * Zpos d2 <= n2 * Zpos d1 ->
  round_half_even n1 d1 <= round_half_even n2 d2.
Proof.
  intros H1 H2 H.
  destruct (round_half_even_spec n1 d1 H1) as [_ E1].
  destruct (round_half_even_spec n2 d2 H2) as [_ E2].
  set (m1 := round_half_even n1 d1) in *. set (m2 := round_half_even n2 d2) in *.
  destruct (Z.le_gt_cases m1 m2) as [L|L]; [exact L|exfalso].
  rewrite Z.abs_le in E1, E2.
  set (A := 2 * n1 - Zpos d1 * (2 * m1 - 1)).
  set (B := Zpos d2 * (2 * m1 - 1) - 2 * n2).
  assert (HA : 0 <= A) by (unfold A; lia).
  assert (HB : 0 <= B) by (unfold B; nia).
  assert (HAB : A * Zpos d2 + B * Zpos d1 <= 0) by (unfold A, B; nia).
  assert (A = 0) by nia. assert (B = 0) by nia.
  assert (T1 : round_half_even n1 d1 = if Z.even (m1 - 1) then m1 - 1 else m1 - 1 + 1)
    by (apply round_half_even_tie; unfold A in *; lia).
  assert (T2 : round_half_even n2 d2 = if Z.even (m1 - 1) then m1 - 1 else m1 - 1 + 1)
    by (apply round_half_even_tie; unfold B in *; lia).
  fold m1 in T1. fold m2 in T2. destruct (Z.even (m1 - 1)); lia.
Qed.

Lemma Qnum_nonneg (y : Q) : (0 <= y)%Q -> 0 <= Qnum y.
Proof. destruct y as [n d]. unfold Qle. simpl. lia. Qed.

Lemma round_grid_mono (q : Z) (a b : Q) : (0 <= a)%Q -> (a <= b)%Q ->
  (round_grid q a <= round_grid q b)%Q.
Proof.
  intros Ha Hab. unfold round_grid.
  assert (Hya : (0 <= a * 2 ^ (- q))%Q) by (apply Qmult_le_0_compat; [exact Ha | apply pow2_nonneg]).
  assert (Hyb : (a * 2 ^ (- q) <= b * 2 ^ (- q))%Q)
    by (apply Qmult_le_compat_r; [exact Hab | apply pow2_nonneg]).
  apply Qmult_le_compat_r; [|apply pow2_nonneg].
  rewrite <- Zle_Qle. apply round_half_even_mono.
  - apply Qnum_nonneg. exact Hya.
  - apply Qnum_nonneg. apply (Qle_trans _ _ _ Hya Hyb).
  - revert Hyb. generalize (a * 2 ^ (- q))%Q (b * 2 ^ (- q))%Q.
    intros [n1 d1] [n2 d2]. unfold Qle. simpl. lia.
Qed.

(** The multiples of [2 ^ q] are fixed points of [round_grid q]: a value
    below (above) one rounds below (above) it. *)
Lemma round_grid_point (q k : Z) (a : Q) : 0 <= k ->
  ((0 <= a <= inject_Z k * 2 ^ q)%Q -> (round_grid q a <= inject_Z k * 2 ^ q)%Q) /\
  ((inject_Z k * 2 ^ q <= a)%Q -> (inject_Z k * 2 ^ q <= round_grid q a)%Q).
Proof.
  intro Hk.
  assert (Hg : (round_grid q (inject_Z k * 2 ^ q) == inject_Z k * 2 ^ q)%Q).
  { unfold round_grid.
    assert (Hy : (inject_Z k * 2 ^ q * 2 ^ (- q) == inject_Z k)%Q).
    { rewrite <- Qmult_assoc, <- pow2_plus. replace (q + - q) with 0 by lia. apply Qmult_1_r. }
    revert Hy. generalize (inject_Z k * 2 ^ q * 2 ^ (- q))%Q. intros [n d] Hy.
    unfold Qeq, inject_Z in Hy. cbn [Qnum Qden] in *. rewrite Z.mul_1_r in Hy.
    replace (round_half_even n d) with k; [reflexivity|].
    rewrite <- (round_half_even_int k) at 1.
    apply Z.le_antisymm; apply round_half_even_mono; nia. }
  assert (Hk' : (0 <= inject_Z k * 2 ^ q)%Q).
  { apply Qmult_le_0_compat; [|apply pow2_nonneg]. change 0%Q with (inject_Z 0).
    rewrite <- Zle_Qle. exact Hk. }
  split.
  - intros [H0 H1]. rewrite <- Hg. apply round_grid_mono; assumption.
  - intro H. rewrite <- Hg. apply round_grid_mono; assumption.
Qed.

Lemma flog2_upper (a : Q) : (0 < a)%Q -> (a < 2 ^ (flog2 a + 1))%Q.
Proof.
  intro Ha. unfold flog2.
  destruct (Qle_bool (2 ^ (Z.log2 (Qnum a) - Z.log2 (Zpos (Qden a)))) a) eqn:E.
  - destruct a as [n d]. cbn [Qnum Qden] in *.
    assert (Hn : 0 < n) by (unfold Qlt in Ha; simpl in Ha; lia).
    destruct (Z.log2_spec n Hn) as [_ Hn2].
    destruct (Z.log2_spec (Zpos d) ltac:(lia)) as [Hd1 _].
    pose proof (Z.log2_nonneg n). pose proof (Z.log2_nonneg (Zpos d)).
    replace (Z.log2 n - Z.log2 (Zpos d) + 1)
      with (Z.succ (Z.log2 n) - Z.log2 (Zpos d)) by lia.
    rewrite pow2_split by lia.
    pose proof (Z.pow_pos_nonneg 2 (Z.log2 (Zpos d)) ltac:(lia) ltac:(lia)).
    apply Qlt_shift_div_l.
    + change 0%Q with (inject_Z 0). rewrite <- Zlt_Qlt. lia.
    + unfold Qlt, Qmult, inject_Z; cbn [Qnum Qden]. nia.
  - replace (_ - 1 + 1) with (Z.log2 (Qnum a) - Z.log2 (Zpos (Qden a))) by lia.
    apply Qnot_le_lt. intro H. apply Qle_bool_iff in H. congruence.
Qed.

Lemma pow2_lt_inv (a b : Z) : (2 ^ a < 2 ^ b)%Q -> a < b.
Proof.
  intro H. destruct (Z.lt_ge_cases a b) as [L|L]; [exact L|].
  exfalso. apply (Qlt_not_le _ _ H). apply pow2_le. exact L.
Qed.

Lemma flog2_mono (a b : Q) : (0 < a)%Q -> (a <= b)%Q -> flog2 a <= flog2 b.
Proof.
  intros Ha Hab.
  pose proof (flog2_lower a Ha). pose proof (flog2_upper b (Qlt_le_trans _ _ _ Ha Hab)).
  assert (flog2 a < flog2 b + 1); [|lia].
  apply pow2_lt_inv. apply (Qle_lt_trans _ a); [assumption|].
  apply (Qle_lt_trans _ b); assumption.
Qed.

(** Rounding to binary32 is monotone on positive values. *)
Lemma round_fexp_mono (a b : Q) : (0 < a)%Q -> (a <= b)%Q ->
  (round_grid (fexp a) a <= round_grid (fexp b) b)%Q.
Proof.
  intros Ha Hab.
  pose proof (flog2_mono a b Ha Hab) as Hab'.
  destruct (Z.eq_dec (fexp a) (fexp b)) as [E|E].
  - rewrite E. apply round_grid_mono; [apply Qlt_le_weak|]; assumption.
  - assert (Hqb : fexp b = flog2 b - 23) by (unfold fexp in *; lia).
    assert (Hqa : fexp a < fexp b) by (unfold fexp in *; lia).
    assert (Hea : flog2 a + 1 <= flog2 b) by (unfold fexp in *; lia).
    assert (G : (2 ^ flog2 b == inject_Z (2 ^ (flog2 b - fexp a)) * 2 ^ fexp a)%Q /\
                (2 ^ flog2 b == inject_Z (2 ^ (flog2 b - fexp b)) * 2 ^ fexp b)%Q).
    { split; rewrite <- pow2_Z by lia; rewrite <- pow2_plus; f_equiv; lia. }
    destruct G as [Ga Gb].
    apply (Qle_trans _ (2 ^ flog2 b)).
    + rewrite Ga. apply (round_grid_point (fexp a) _ a); [apply Z.pow_nonneg; lia|].
      rewrite <- Ga. split; [apply Qlt_le_weak, Ha|].
      apply Qlt_le_weak, (Qlt_le_trans _ _ _ (flog2_upper a Ha)). apply pow2_le. exact Hea.
    + rewrite Gb. apply (round_grid_point (fexp b) _ b); [apply Z.pow_nonneg; lia|].
      rewrite <- Gb. apply flog2_lower. apply (Qlt_le_trans _ _ _ Ha Hab).
Qed.

Lemma fl32_pos (x r : Q) : (0 < x)%Q -> fl32 x = Some r -> (r == round_grid (fexp x) x)%Q.
Proof.
  intros Hx H. unfold fl32 in H.
  assert (Hn : 0 < Qnum x) by (destruct x as [n d]; unfold Qlt in Hx; simpl in *; lia).
  replace (Qnum x =? 0) with false in H by (symmetry; apply Z.eqb_neq; lia).
  replace (Qnum x <? 0) with false in H by (symmetry; apply Z.ltb_ge; lia).
  replace (Qabs x) with x in H by (destruct x as [n d]; cbn in *; f_equal; lia).
  destruct (Qle_bool _ _) in H; [discriminate|]. injection H as <-. reflexivity.
Qed.

Lemma fl32_neg (x r : Q) : (x < 0)%Q -> fl32 x = Some r ->
  (r == - round_grid (fexp (- x)) (- x))%Q.
Proof.
  intros Hx H. unfold fl32 in H.
  assert (Hn : Qnum x < 0) by (destruct x as [n d]; unfold Qlt in Hx; simpl in *; lia).
  replace (Qnum x =? 0) with false in H by (symmetry; apply Z.eqb_neq; lia).
  replace (Qnum x <? 0) with true in H by (symmetry; apply Z.ltb_lt; lia).
  assert (Ha : Qabs x = (- x)%Q). { destruct x as [n d]; unfold Qabs, Qopp; cbn [Qnum Qden] in *. f_equal; lia. } rewrite Ha in H.
  destruct (Qle_bool _ _) in H; [discriminate|]. injection H as <-. reflexivity.
Qed.

Lemma fl32_sign (x r : Q) : fl32 x = Some r ->
  ((0 <= x)%Q -> (0 <= r)%Q) /\ ((x <= 0)%Q -> (r <= 0)%Q).
Proof. intro H. pose proof (fl32_spec x) as S. rewrite H in S. apply S. Qed.

(** Rounding to binary32 is monotone. *)
Lemma fl32_monotone (x y rx ry : Q) :
  fl32 x = Some rx -> fl32 y = Some ry -> (x <= y)%Q -> (rx <= ry)%Q.
Proof.
  intros Hx Hy Hxy.
  destruct (fl32_sign x rx Hx) as [Sx0 Sx1], (fl32_sign y ry Hy) as [Sy0 Sy1].
  destruct (Qlt_le_dec 0 x) as [Px|Px].
  - rewrite (fl32_pos x rx Px Hx), (fl32_pos y ry (Qlt_le_trans _ _ _ Px Hxy) Hy).
    apply round_fexp_mono; assumption.
  - destruct (Qlt_le_dec y 0) as [Ny|Ny].
    + assert (Nx : (x < 0)%Q) by (apply (Qle_lt_trans _ _ _ Hxy Ny)).
      rewrite (fl32_neg x rx Nx Hx), (fl32_neg y ry Ny Hy).
      apply Qopp_le_compat. apply round_fexp_mono; lra.
    + apply (Qle_trans _ 0); auto.
Qed.

(* ========================================================================= *)
(** * Properties of the derived output *)

Import DacOutput.

Lemma trunc_spec (q : Q) :
  ((0 <= q -> inject_Z (trunc q) <= q < inject_Z (trunc q + 1)) /\
   (q <= 0 -> inject_Z (trunc q - 1) < q <= inject_Z (trunc q)))%Q.
Proof.
  destruct q as [n d]; unfold trunc, Qle, Qlt, inject_Z; simpl.
  pose proof (Z.quot_rem' n (Zpos d)) as Hqr.
  split; intro Hs; rewrite ?Z.mul_1_r in *.
  - pose proof (Z.rem_bound_pos n (Zpos d) ltac:(lia) ltac:(lia)). nia.
  - pose proof (Z.rem_bound_pos (- n) (Zpos d) ltac:(lia) ltac:(lia)) as Hb.
    rewrite Z.rem_opp_l in Hb by lia. nia.
Qed.

Lemma c_int_some (q : Q) (t : Z) :
  c_int q = Some t -> t = trunc q /\ - 2 ^ 31 <= t < 2 ^ 31.
Proof.
  unfold c_int. destruct (_ && _) eqn:E; [|discriminate].
  intro H. injection H as <-. apply andb_prop in E. destruct E as [E1 E2].
  apply Z.leb_le in E1. apply Z.ltb_lt in E2. lia.
Qed.

Lemma c_int_defined (q : Q) :
  (inject_Z (- 2 ^ 31) < q < inject_Z (2 ^ 31))%Q -> c_int q = Some (trunc q).
Proof.
  intros [H1 H2]. destruct (trunc_spec q) as [Hp Hn].
  assert (Hr : - 2 ^ 31 <= trunc q < 2 ^ 31).
  { destruct (Qlt_le_dec q 0) as [Hq|Hq].
    - destruct (Hn (Qlt_le_weak _ _ Hq)) as [_ Hb].
      assert (inject_Z (- 2 ^ 31) < inject_Z (trunc q))%Q by lra.
      assert (inject_Z (trunc q - 1) < inject_Z 0)%Q
        by (change (inject_Z 0) with 0%Q; lra).
      rewrite <- Zlt_Qlt in *. lia.
    - destruct (Hp Hq) as [Ha Hb].
      assert (inject_Z (trunc q) < inject_Z (2 ^ 31))%Q by lra.
      assert (inject_Z 0 < inject_Z (trunc q + 1))%Q
        by (change (inject_Z 0) with 0%Q; lra).
      rewrite <- Zlt_Qlt in *. lia. }
  unfold c_int. cbv zeta.
  replace ((- 2 ^ 31 <=? trunc q) && (trunc q <? 2 ^ 31)) with true; [reflexivity|].
  symmetry. apply andb_true_intro. split; [apply Z.leb_le | apply Z.ltb_lt]; lia.
Qed.

(** C4 (counterexample): the code does not round to the nearest integer:
    with [resultV_0 = 1] and [resultV_1 = 1/128] the scaled product is
    [2.90625] (exact in [float32_t]); the CTDAC receives 2, rounding gives 3. *)
Lemma compute_does_not_round :
  compute 1 (1 # 128) = Some 2 /\
  round_Q (1 * (1 # 128) * inject_Z SCALING_FACTOR)%Q = 3 /\
  ~ (forall p0 p1 : Q,
       compute p0 p1 = Some (round_Q (p0 * p1 * inject_Z SCALING_FACTOR)%Q)).
Proof.
  split; [vm_compute; reflexivity|]. split; [vm_compute; reflexivity|].
  intro H. specialize (H 1%Q (1 # 128)%Q). vm_compute in H. discriminate H.
Qed.

(** C4 (amended): whenever the code handed to the CTDAC is defined, it is
    computed as the source does in single precision: the product
    [resultV_0 * resultV_1] is rounded to a [float32_t] [p], the product
    [p * 372] is rounded to a [float32_t] [x], and the code is [x] truncated
    toward zero (the greatest integer not above [x] when [x] is
    non-negative, the least integer not below it when [x] is non-positive),
    which lies in the range of [int]. The two roundings keep [x] within a
    relative [2 ^ -22] (plus [2 ^ -140]) of the exact scaled product. *)
Theorem compute_truncates_rounded_product (p0 p1 : Q) (c : Z) :
  compute p0 p1 = Some c ->
  exists p x : Q,
    fl32 (p0 * p1) = Some p /\ fl32 (p * inject_Z SCALING_FACTOR) = Some x /\
    ((0 <= x -> inject_Z c <= x < inject_Z (c + 1)) /\
     (x <= 0 -> inject_Z (c - 1) < x <= inject_Z c))%Q /\
    - 2 ^ 31 <= c < 2 ^ 31 /\
    (Qabs (x - p0 * p1 * inject_Z SCALING_FACTOR) <=
       Qabs (p0 * p1 * inject_Z SCALING_FACTOR) * 2 ^ (-22) + 2 ^ (-140))%Q.
Proof.
  unfold compute.
  destruct (fl32 (p0 * p1)) as [p|] eqn:Hp; [|discriminate].
  destruct (fl32 (p * inject_Z SCALING_FACTOR)) as [x|] eqn:Hx; [|discriminate].
  intro Hc. destruct (c_int_some x c Hc) as [-> Hr].
  exists p, x. split; [reflexivity|]. split; [exact Hx|].
  split; [apply trunc_spec|]. split; [exact Hr|].
  pose proof (fl32_error _ _ Hp) as E1. pose proof (fl32_error _ _ Hx) as E2.
  change (inject_Z SCALING_FACTOR) with (372 # 1)%Q in *.
  set (P := (p0 * p1)%Q) in *.
  rewrite Qabs_Qmult in E2 |- *. change (Qabs (372 # 1)) with (372 # 1)%Q in E2 |- *.
  set (t := (2 ^ (-24))%Q) in *. set (u := (2 ^ (-150))%Q) in *.
  assert (Ht : (0 <= t <= 1)%Q) by (split; vm_compute; discriminate).
  assert (Hu : (0 <= u)%Q) by (vm_compute; discriminate).
  assert (H22 : (2 ^ (-22) == 4 * t)%Q) by (vm_compute; reflexivity).
  assert (H140 : (2 ^ (-140) == 1024 * u)%Q) by (vm_compute; reflexivity).
  rewrite H22, H140.
  assert (HB : (Qabs p <= Qabs P + (Qabs P * t + u))%Q).
  { eapply Qle_trans; [|apply Qplus_le_compat; [apply Qle_refl | exact E1]].
    setoid_replace p with (P + (p - P))%Q at 1 by ring. apply Qabs_triangle. }
  assert (HBt : (Qabs p * t <= (Qabs P + (Qabs P * t + u)) * t)%Q)
    by (apply Qmult_le_compat_r; [exact HB | apply Ht]).
  assert (HPt : (Qabs P * t * t <= Qabs P * t)%Q).
  { rewrite <- (Qmult_1_r (Qabs P * t)) at 2. rewrite !(Qmult_comm (Qabs P * t)).
    apply Qmult_le_compat_r; [apply Ht | apply Qmult_le_0_compat; [apply Qabs_nonneg | apply Ht]]. }
  assert (Hut : (u * t <= u)%Q).
  { rewrite <- (Qmult_1_r u) at 2. rewrite !(Qmult_comm u).
    apply Qmult_le_compat_r; [apply Ht | exact Hu]. }
  assert (Htri : (Qabs (x - P * (372 # 1)) <=
                  Qabs (x - p * (372 # 1)) + Qabs ((p - P) * (372 # 1)))%Q).
  { setoid_replace (x - P * (372 # 1))%Q
      with ((x - p * (372 # 1)) + (p - P) * (372 # 1))%Q by ring.
    apply Qabs_triangle. }
  rewrite Qabs_Qmult in Htri. change (Qabs (372 # 1)) with (372 # 1)%Q in Htri.
  assert (0 <= Qabs P * t)%Q by (apply Qmult_le_0_compat; [apply Qabs_nonneg | apply Ht]).
  lra.
Qed.

Lemma compute_truncates_rounded_product_witness :
  compute 1 (11545611 # 4294967296) = Some 1 /\
  trunc (1 * (11545611 # 4294967296) * inject_Z SCALING_FACTOR)%Q = 0 /\
  exists p x : Q,
    fl32 (1 * (11545611 # 4294967296)) = Some p /\
    fl32 (p * inject_Z SCALING_FACTOR) = Some x /\
    ((0 <= x -> inject_Z 1 <= x < inject_Z (1 + 1)) /\
     (x <= 0 -> inject_Z (1 - 1) < x <= inject_Z 1))%Q /\
    - 2 ^ 31 <= 1 < 2 ^ 31 /\
    (Qabs (x - 1 * (11545611 # 4294967296) * inject_Z SCALING_FACTOR) <=
       Qabs (1 * (11545611 # 4294967296) * inject_Z SCALING_FACTOR) * 2 ^ (-22)
       + 2 ^ (-140))%Q.
Proof.
  split; [vm_compute; reflexivity|]. split; [vm_compute; reflexivity|].
  apply (compute_truncates_rounded_product 1 (11545611 # 4294967296) 1).
  vm_compute. reflexivity.
Defined.

(** C5 (counterexample): two full-scale inputs of 3.3 V (the [float32_t]
    nearest to 3.3) do not give the device maximum 4095, which the comment
    above [SCALING_FACTOR] says represents [10.89] V; [372] matches
    [4095 / 11 = 372.27], not [4095 / 10.89 = 376.03]. *)
Lemma full_scale_not_max_code :
  fl32 (33 # 10) = Some full_scale /\
  ~ (compute full_scale full_scale = Some deviceMaxCode /\ forall x, compute 0 x = Some 0).
Proof.
  split; [vm_compute; reflexivity|].
  intros [H _]. vm_compute in H. discriminate H.
Qed.

(** C5 (what the code does, against its comment): two full-scale inputs of
    3.3 V give the code 4051 (the scaled product [10.89 * 372 = 4051.08],
    truncated), whether 3.3 is taken as its [float32_t] or exactly; a zero
    input gives the code 0 whatever the other. *)
Theorem full_scale_and_zero_codes :
  fl32 (33 # 10) = Some full_scale /\
  compute full_scale full_scale = Some 4051 /\
  compute (33 # 10) (33 # 10) = Some 4051 /\
  forall x, compute 0 x = Some 0.
Proof.
  split; [vm_compute; reflexivity|].
  split; [vm_compute; reflexivity|].
  split; [vm_compute; reflexivity|].
  intros [n d]. reflexivity.
Qed.

(** C1 (counterexample): the code is not clamped: inputs of 4 V and 4 V give
    5952 > 4095, and inputs of -1 V and 1 V give -372 < 0. *)
Lemma dac_code_not_clamped :
  compute 4 4 = Some 5952 /\ compute (-1) 1 = Some (-372) /\
  ~ (forall p0 p1 : Q, exists c, compute p0 p1 = Some c /\ 0 <= c <= deviceMaxCode).
Proof.
  split; [vm_compute; reflexivity|]. split; [vm_compute; reflexivity|].
  intro H. destruct (H 4%Q 4%Q) as (c & Hc & _ & H1). vm_compute in Hc.
  injection Hc as <-. vm_compute in H1. apply H1. reflexivity.
Qed.

(** C1 (amended): no clamp is applied; when both voltages lie in the nominal
    input range [0, 3.3] V the code handed to the CTDAC is defined and lies
    in [0, deviceMaxCode]. *)
Theorem dac_code_in_range_for_nominal_inputs (p0 p1 : Q) :
  (0 <= p0 <= 33 # 10)%Q -> (0 <= p1 <= 33 # 10)%Q ->
  exists c, compute p0 p1 = Some c /\ 0 <= c <= deviceMaxCode.
Proof.
  intros [Ha Hb] [Hc Hd].
  assert (HP : (0 <= p0 * p1 <= 1089 # 100)%Q).
  { split; [apply Qmult_le_0_compat; assumption|].
    apply (Qle_trans _ ((33 # 10) * (33 # 10))); [|apply Qle_refl].
    apply Qmult_le_compat_nonneg; split; assumption. }
  assert (H127 : (1000000 < 2 ^ 127)%Q) by (vm_compute; reflexivity).
  assert (Ht : (2 ^ (-24) <= 1 # 10000000)%Q) by (vm_compute; discriminate).
  assert (Hu : (2 ^ (-150) <= 1 # 10000000)%Q) by (vm_compute; discriminate).
  assert (Hv : (0 <= 2 ^ (-150))%Q) by apply pow2_nonneg.
  destruct (fl32_defined (p0 * p1)) as [p Hp].
  { rewrite Qabs_pos by apply HP. lra. }
  pose proof (fl32_nonneg _ _ Hp (proj1 HP)) as Hp0.
  pose proof (fl32_upper _ _ _ Hp HP) as Hp1.
  assert (Hm : ((1089 # 100) * 2 ^ (-24) <= 1 # 100000)%Q) by (vm_compute; discriminate).
  change (inject_Z SCALING_FACTOR) with (372 # 1)%Q.
  assert (HY : (0 <= p * (372 # 1) <= 40511 # 10)%Q) by lra.
  destruct (fl32_defined (p * (372 # 1))) as [x Hx].
  { rewrite Qabs_pos by apply HY. lra. }
  pose proof (fl32_nonneg _ _ Hx (proj1 HY)) as Hx0.
  pose proof (fl32_upper _ _ _ Hx HY) as Hx1.
  assert (Hm' : ((40511 # 10) * 2 ^ (-24) <= 1 # 1000)%Q) by (vm_compute; discriminate).
  assert (Hx2 : (x < 4052)%Q) by lra.
  assert (Hi : c_int x = Some (trunc x)).
  { apply c_int_defined. split; [|change (inject_Z (2 ^ 31)) with 2147483648%Q];
      [change (inject_Z (- 2 ^ 31)) with (-2147483648)%Q|]; lra. }
  exists (trunc x). unfold compute. change (inject_Z SCALING_FACTOR) with (372 # 1)%Q.
  rewrite Hp, Hx, Hi. split; [reflexivity|].
  destruct (proj1 (trunc_spec x) Hx0) as [T1 T2].
  assert (inject_Z (trunc x) < inject_Z 4052)%Q
    by (change (inject_Z 4052) with 4052%Q; lra).
  assert (inject_Z 0 < inject_Z (trunc x + 1))%Q
    by (change (inject_Z 0) with 0%Q; lra).
  rewrite <- Zlt_Qlt in *. unfold deviceMaxCode. lia.
Qed.

Lemma dac_code_in_range_for_nominal_inputs_witness :
  (exists c, compute 1 2 = Some c /\ 0 <= c <= deviceMaxCode) /\ compute 1 2 = Some 744.
Proof.
  split.
  - apply (dac_code_in_range_for_nominal_inputs 1%Q 2%Q);
      split; unfold Qle; simpl; lia.
  - vm_compute. reflexivity.
Defined.

(* ========================================================================= *)
(** * Properties of the interrupt handlers and of the loop *)

Import Telemetry Loop.

Ltac destruct_state s :=
  destruct s as [?p ?f0 ?f1 ?i0 ?i1 ?r0 ?r1 ?tx ?dv ?out].

Lemma land_eos_testbit (x : Z) :
  (Z.land x CY_SAR_INTR_EOS =? 0) = negb (Z.testbit x 0).
Proof.
  unfold CY_SAR_INTR_EOS. change 1 with (Z.ones 1).
  rewrite Z.land_ones by lia. rewrite Zmod_odd, Z.bit0_odd.
  destruct (Z.odd x); reflexivity.
Qed.

Lemma land_clear_mask (x m : Z) : Z.land (Z.land x (Z.lnot m)) m = 0.
Proof.
  rewrite <- Z.land_assoc, (Z.land_comm (Z.lnot m) m), Z.land_lnot_diag.
  apply Z.land_0_r.
Qed.

(** C10: a SAR handler sets its ready flag exactly when the end-of-scan bit
    (bit 0) of its INTR register is set, leaves the flag unchanged otherwise,
    and in both cases clears every SAR interrupt source of [CY_SAR_INTR]. *)
Theorem sar_handler_sets_flag_on_eos : forall (u : sar_unit) (s : state),
  flag u (handler u s) = (if Z.testbit (intr u s) 0 then true else flag u s) /\
  Z.land (intr u (handler u s)) CY_SAR_INTR = 0.
Proof.
  intros u s. destruct u; destruct_state s; cbn [handler];
    unfold sar0_interrupt, sar1_interrupt, Cy_SAR_GetInterruptStatus;
    cbn [intr flag sar0_intr sar1_intr];
    rewrite land_eos_testbit; destruct (Z.testbit _ 0);
    unfold Cy_SAR_ClearInterrupt;
    cbn [negb set_intr set_flag flag intr pc sar0_isr_set sar1_isr_set sar0_intr sar1_intr];
    split; try reflexivity; apply land_clear_mask.
Qed.

(** C8: single writer per flag. Each handler writes only its own flag (and
    its own INTR register); the main loop never sets a flag, changes a flag
    only at its two clearing stores, and reaches the first clearing store
    only from a gate test that found both flags true, the second only from
    the first. *)
Theorem single_writer_per_flag : forall cv : sar_unit -> Z -> Q,
  (forall u s, exists b i, handler u s = set_intr u i (set_flag u b s)) /\
  (forall u s, flag u (main_step cv s) = true -> flag u s = true) /\
  (forall u s, flag u (main_step cv s) <> flag u s -> pc s = Clear0 \/ pc s = Clear1) /\
  (forall s, pc (main_step cv s) = Clear0 ->
             pc s = Check /\ sar0_isr_set s = true /\ sar1_isr_set s = true) /\
  (forall s, pc (main_step cv s) = Clear1 -> pc s = Clear0).
Proof.
  intro cv. split; [|split; [|split; [|split]]].
  - intros u s. destruct u; destruct_state s;
      unfold handler, sar0_interrupt, sar1_interrupt, Cy_SAR_GetInterruptStatus;
      cbn [intr sar0_intr sar1_intr];
      destruct (negb _); eexists; eexists; reflexivity.
  - intros u s. destruct u; destruct_state s; destruct p; cbn;
      repeat match goal with |- context [if ?b then _ else _] => destruct b end;
      cbn; auto; discriminate.
  - intros u s. destruct u; destruct_state s; destruct p; cbn;
      repeat match goal with |- context [if ?b then _ else _] => destruct b end;
      cbn; auto; intro H; exfalso; apply H; reflexivity.
  - intros s. destruct_state s; destruct p; cbn;
      repeat match goal with |- context [if ?b then _ else _] => destruct b eqn:? end;
      cbn; try discriminate; intros _;
      repeat match goal with H : (_ && _)%bool = true |- _ => apply andb_prop in H end;
      intuition.
  - intros s. destruct_state s; destruct p; cbn;
      repeat match goal with |- context [if ?b then _ else _] => destruct b end;
      cbn; auto; discriminate.
Qed.

(** C7: every move of the loop follows the cycle drain, wait, process: the
    wait (the gate test) is entered from the drain loop only once the UART
    is no longer transmitting, or from a wake-up; the clearing stores and
    the processing follow only a gate test that found both flags true; the
    processing returns to the drain loop. Handlers, ends of scan and the UART
    never move the loop, and only the processing step writes the CTDAC or
    prints. *)
Theorem loop_drains_waits_then_processes :
  forall (cv : sar_unit -> Z -> Q) (e : event) (s s' : state) (o : list obs),
  step cv e s = Some (s', o) ->
  (pc s' = pc s \/ (e = EMain /\ loop_edge s s')) /\
  ((ctdac_value s' = ctdac_value s /\ uart_out s' = uart_out s) \/
   (e = EMain /\ pc s = Process)).
Proof.
  intros cv e s s' o H. destruct e as [|u r|u|]; cbn [step] in H.
  - injection H as <- _. destruct_state s; destruct p; cbn;
      repeat match goal with |- context [if ?b then _ else _] => destruct b eqn:? end;
      unfold loop_edge; cbn; auto 6.
  - injection H as <- _. destruct u; destruct_state s; cbn; auto.
  - destruct (Z.land (intr u s) CY_SAR_INTR =? 0); [discriminate|].
    injection H as <- _. destruct u; destruct_state s;
      unfold handler, sar0_interrupt, sar1_interrupt;
      destruct (negb _); cbn; auto.
  - destruct (uart_tx_active s); [|discriminate].
    injection H as <- _. destruct_state s; cbn; auto.
Qed.

Definition processing_state : state :=
  mkState Process true false 0 0 1241 2482 false None [].

Lemma loop_drains_waits_then_processes_witness :
  (pc (main_step lin_cal processing_state) = pc processing_state \/
   (EMain = EMain /\ loop_edge processing_state (main_step lin_cal processing_state))) /\
  ((ctdac_value (main_step lin_cal processing_state) = ctdac_value processing_state /\
    uart_out (main_step lin_cal processing_state) = uart_out processing_state) \/
   (EMain = EMain /\ pc processing_state = Process)).
Proof.
  apply (loop_drains_waits_then_processes lin_cal EMain processing_state
           (main_step lin_cal processing_state) (main_obs processing_state)).
  reflexivity.
Defined.

Lemma is_digit_char (d : Z) : is_digit (digit_char (d mod 10)) = true.
Proof.
  unfold digit_char, is_digit. pose proof (Z.mod_pos_bound d 10 ltac:(lia)).
  rewrite nat_ascii_embedding by lia.
  apply andb_true_intro; split; apply Nat.leb_le; lia.
Qed.

Lemma dec_digits_all_digits (f : nat) (n : Z) (acc : string) :
  all_digits acc = true -> all_digits (dec_digits f n acc) = true.
Proof.
  revert n acc. induction f as [|f IH]; intros n acc Hacc; cbn [dec_digits]; [exact Hacc|].
  destruct (n <? 10); [|apply IH]; cbn [all_digits]; rewrite is_digit_char, Hacc; reflexivity.
Qed.

Lemma dec_digits_nonempty (f : nat) (n : Z) (acc : string) :
  acc <> EmptyString -> dec_digits f n acc <> EmptyString.
Proof.
  revert n acc. induction f as [|f IH]; intros n acc Hacc; cbn [dec_digits]; [exact Hacc|].
  destruct (n <? 10); [discriminate|]. apply IH. discriminate.
Qed.

Lemma fmt2_two_decimals (v : Q) : two_decimals (fmt2 v).
Proof.
  unfold fmt2, two_decimals. cbv zeta.
  do 4 eexists. split; [reflexivity|].
  split; [destruct (Qnum v <? 0); [right|left]; reflexivity|].
  split; [|split; [apply dec_digits_all_digits; reflexivity|split; apply is_digit_char]].
  unfold dec_string. cbn [dec_digits].
  destruct (_ <? 10); [discriminate|]. apply dec_digits_nonempty. discriminate.
Qed.

Lemma set_since_app (u : sar_unit) (h o : list obs) :
  set_since u (h ++ o) = fold_left (since_step u) o (set_since u h).
Proof. unfold set_since. apply fold_left_app. Qed.

Lemma step_masked_gate_inv (cv : sar_unit -> Z -> Q) (e : event) (s s' : state)
    (h o : list obs) :
  step_masked cv e s = Some (s', o) -> gate_inv s h -> gate_inv s' (h ++ o).
Proof.
  unfold gate_inv. rewrite !set_since_app.
  destruct e as [|u r|u|]; cbn [step_masked step].
  - intro H. injection H as <- <-. destruct_state s; destruct p; cbn;
      repeat match goal with |- context [if ?b then _ else _] => destruct b eqn:? end;
      repeat match goal with H : (_ && _)%bool = true |- _ => apply andb_prop in H end;
      cbn; intuition congruence.
  - intro H. injection H as <- <-. destruct u; destruct_state s; cbn; auto.
  - destruct u; destruct_state s; cbn [pc];
      destruct p; try discriminate; cbn [step intr sar0_intr sar1_intr];
      (destruct (Z.land _ CY_SAR_INTR =? 0); [discriminate|]);
      intro H; injection H as <- <-;
      unfold handler, sar0_interrupt, sar1_interrupt, Cy_SAR_GetInterruptStatus;
      cbn [intr sar0_intr sar1_intr];
      (destruct (Z.land _ CY_SAR_INTR_EOS =? 0); cbn; intuition).
  - destruct (uart_tx_active s); [|discriminate].
    intro H. injection H as <- <-. destruct_state s; cbn; auto.
Qed.

Lemma exec_masked_gate_inv (cv : sar_unit -> Z -> Q) (tr : list event) :
  forall (s s' : state) (h o : list obs),
  exec (step_masked cv) tr s = Some (s', o) -> gate_inv s h -> gate_inv s' (h ++ o).
Proof.
  induction tr as [|e tr IH]; intros s s' h o Hx Hi; cbn [exec] in Hx.
  - injection Hx as <- <-. rewrite app_nil_r. exact Hi.
  - destruct (step_masked cv e s) as [[s1 o1]|] eqn:E1; [|discriminate].
    destruct (exec (step_masked cv) tr s1) as [[s2 o2]|] eqn:E2; [|discriminate].
    injection Hx as <- <-. rewrite app_assoc.
    apply (IH s1 s2 (h ++ o1) o2 E2). exact (step_masked_gate_inv cv e s s1 h o1 E1 Hi).
Qed.

(** C2 (amended): with the SAR interrupts held pending from the gate test
    to the second clearing store, for every run from the loop entry and for
    every order of completions, the gate test opens the gate exactly when
    both handlers have set their flags since the last gate opening (an
    opening starts a new pair). *)
Theorem gate_opens_iff_both_set_masked :
  forall (cv : sar_unit -> Z -> Q) (tr : list event) (s : state) (h : list obs),
  exec (step_masked cv) tr init_state = Some (s, h) -> pc s = Check ->
  (main_obs s = [OOpen] <-> set_since SAR0 h = true /\ set_since SAR1 h = true).
Proof.
  intros cv tr s h Hx Hc.
  pose proof (exec_masked_gate_inv cv tr init_state s [] h Hx) as Hi.
  cbn [app] in Hi. specialize (Hi (conj eq_refl eq_refl)).
  unfold gate_inv, main_obs in *. rewrite Hc in *. destruct Hi as [-> ->].
  destruct (set_since SAR0 h), (set_since SAR1 h); cbn; intuition discriminate.
Qed.

Lemma gate_opens_iff_both_set_masked_witness :
  exec (step_masked lin_cal) first_pair_trace init_state =
    Some (mkState Check true true 0 0 1241 2482 false None [], [OSet SAR0; OSet SAR1]) /\
  (main_obs (mkState Check true true 0 0 1241 2482 false None []) = [OOpen] <->
   set_since SAR0 [OSet SAR0; OSet SAR1] = true /\
   set_since SAR1 [OSet SAR0; OSet SAR1] = true).
Proof.
  split; [vm_compute; reflexivity|].
  apply (gate_opens_iff_both_set_masked lin_cal first_pair_trace);
    [vm_compute; reflexivity | reflexivity].
Defined.

(** C2 (counterexample): in the code as written (handlers may run at any
    point of the loop), SAR1 completes between the gate test and the
    clearing stores and SAR0 completes after them: both have signalled since
    the last opening, yet the gate test does not open the gate, because the
    clearing store erased SAR1's signal. *)
Lemma gate_misses_pair_after_clear_window_race :
  ~ (forall (tr : list event) (s : state) (h : list obs),
       exec (step lin_cal) tr init_state = Some (s, h) -> pc s = Check ->
       (main_obs s = [OOpen] <-> set_since SAR0 h = true /\ set_since SAR1 h = true)).
Proof.
  intro H. pose proof (H sar1_in_clear_window_trace) as H1. vm_compute in H1.
  specialize (H1 _ _ eq_refl eq_refl). vm_compute in H1.
  destruct H1 as [_ H2]. specialize (H2 (conj eq_refl eq_refl)). discriminate H2.
Qed.

Lemma step_flag_persists (cv : sar_unit -> Z -> Q) (e : event) (s s1 : state)
    (o : list obs) (u : sar_unit) :
  step cv e s = Some (s1, o) -> flag u s = true -> ~ In (OClear u) o -> flag u s1 = true.
Proof.
  destruct e as [|v r|v|]; cbn [step].
  - intro H. injection H as <- <-. destruct u; destruct_state s; destruct p; cbn;
      repeat match goal with |- context [if ?b then _ else _] => destruct b end;
      cbn; intuition.
  - intro H. injection H as <- <-. destruct u, v; destruct_state s; cbn; auto.
  - destruct (Z.land (intr v s) CY_SAR_INTR =? 0); [discriminate|].
    intro H. injection H as <- <-.
    destruct u, v; destruct_state s;
      unfold handler, sar0_interrupt, sar1_interrupt; destruct (negb _); cbn; auto.
  - destruct (uart_tx_active s); [|discriminate].
    intro H. injection H as <- <-. destruct u; destruct_state s; cbn; auto.
Qed.

Lemma exec_flag_persists (cv : sar_unit -> Z -> Q) (u : sar_unit) (tr : list event) :
  forall (s s' : state) (o : list obs),
  exec (step cv) tr s = Some (s', o) -> flag u s = true -> ~ In (OClear u) o ->
  flag u s' = true.
Proof.
  induction tr as [|e tr IH]; intros s s' o Hx Hf Hn; cbn [exec] in Hx.
  - injection Hx as <- <-. exact Hf.
  - destruct (step cv e s) as [[s1 o1]|] eqn:E1; [|discriminate].
    destruct (exec (step cv) tr s1) as [[s2 o2]|] eqn:E2; [|discriminate].
    injection Hx as <- <-.
    apply (IH s1 s2 o2 E2).
    + apply (step_flag_persists cv e s s1 o1 u E1 Hf).
      intro Hi. apply Hn. apply in_or_app. left. exact Hi.
    + intro Hi. apply Hn. apply in_or_app. right. exact Hi.
Qed.

Lemma step_isr_sets_flag (cv : sar_unit -> Z -> Q) (u : sar_unit) (s1 s2 : state) :
  step cv (EIsr u) s1 = Some (s2, [OSet u]) -> flag u s2 = true /\ pc s2 = pc s1.
Proof.
  cbn [step]. destruct (Z.land (intr u s1) CY_SAR_INTR =? 0); [discriminate|].
  destruct (Z.land (intr u s1) CY_SAR_INTR_EOS =? 0) eqn:E; intro H; [discriminate H|].
  injection H as <-.
  destruct u; destruct_state s1;
    unfold handler, sar0_interrupt, sar1_interrupt, Cy_SAR_GetInterruptStatus;
    cbn [intr] in E |- *; rewrite E; cbn; auto.
Qed.

Ltac step_cases H :=
  match type of H with
  | step _ ?e ?s = Some _ =>
      destruct e as [|?v ?r|?v|]; cbn [step] in H;
      [ injection H as <- <-;
        let p := fresh "p" in destruct s as [p ? ? ? ? ? ? ? ? ?]; destruct p;
        cbn [main_step main_obs pc set_pc set_flag];
        repeat match goal with |- context [if ?b then _ else _] => destruct b end
      | injection H as <- <-; destruct v; destruct_state s
      | destruct (Z.land (intr v s) CY_SAR_INTR =? 0); [discriminate|];
        injection H as <- <-; destruct v; destruct_state s;
        unfold handler, sar0_interrupt, sar1_interrupt;
        destruct (negb _); destruct (Z.land _ CY_SAR_INTR_EOS =? 0)
      | destruct (uart_tx_active s); [|discriminate];
        injection H as <- <-; destruct_state s ]
  end.

(** Outside [u]'s clear window, a step either shows a gate opening before
    any clearing store of [u]'s flag, or shows neither and stays outside
    the window. *)
Lemma step_outside_clear_window (cv : sar_unit -> Z -> Q) (u : sar_unit) (e : event)
    (s s' : state) (o : list obs) :
  step cv e s = Some (s', o) -> in_clear_window u (pc s) = false ->
  forall h, open_before_clear u (o ++ h) = true \/
            (open_before_clear u (o ++ h) = open_before_clear u h /\
             in_clear_window u (pc s') = false).
Proof.
  intro H. step_cases H; intros Hw h; destruct u;
    cbn [pc in_clear_window app open_before_clear sar_unit_eqb] in *;
    auto; discriminate.
Qed.

(** Inside [u]'s clear window, a step either shows the clearing store of
    [u]'s flag before any gate opening, or shows neither and stays inside
    the window. *)
Lemma step_inside_clear_window (cv : sar_unit -> Z -> Q) (u : sar_unit) (e : event)
    (s s' : state) (o : list obs) :
  step cv e s = Some (s', o) -> in_clear_window u (pc s) = true ->
  forall h, open_before_clear u (o ++ h) = false \/
            (open_before_clear u (o ++ h) = open_before_clear u h /\
             in_clear_window u (pc s') = true /\ ~ In (OClear u) o).
Proof.
  intro H. step_cases H; intros Hw h; destruct u;
    cbn [pc in_clear_window app open_before_clear sar_unit_eqb In
         Cy_SAR_ClearInterrupt set_intr set_flag hw_end_of_scan set_tx_active] in *;
    try discriminate; auto;
    right; (split; [reflexivity|]); (split; [first [reflexivity | assumption]|]);
    intuition discriminate.
Qed.

Lemma exec_outside_clear_window (cv : sar_unit -> Z -> Q) (u : sar_unit) (tr : list event) :
  forall (s s' : state) (h : list obs),
  exec (step cv) tr s = Some (s', h) -> in_clear_window u (pc s) = false ->
  open_before_clear u h = true.
Proof.
  induction tr as [|e tr IH]; intros s s' h Hx Hw; cbn [exec] in Hx.
  - injection Hx as <- <-. reflexivity.
  - destruct (step cv e s) as [[s1 o1]|] eqn:E1; [|discriminate].
    destruct (exec (step cv) tr s1) as [[s2 o2]|] eqn:E2; [|discriminate].
    injection Hx as <- <-.
    destruct (step_outside_clear_window cv u e s s1 o1 E1 Hw o2) as [T | [T W]];
      [exact T|]. rewrite T. exact (IH s1 s2 o2 E2 W).
Qed.

Lemma exec_inside_clear_window (cv : sar_unit -> Z -> Q) (u : sar_unit) (tr : list event) :
  forall (s s' : state) (h : list obs),
  exec (step cv) tr s = Some (s', h) -> in_clear_window u (pc s) = true ->
  In (OClear u) h -> open_before_clear u h = false.
Proof.
  induction tr as [|e tr IH]; intros s s' h Hx Hw Hi; cbn [exec] in Hx.
  - injection Hx as <- <-. destruct Hi.
  - destruct (step cv e s) as [[s1 o1]|] eqn:E1; [|discriminate].
    destruct (exec (step cv) tr s1) as [[s2 o2]|] eqn:E2; [|discriminate].
    injection Hx as <- <-.
    destruct (step_inside_clear_window cv u e s s1 o1 E1 Hw o2) as [T | (T & W & N)];
      [exact T|]. rewrite T. apply (IH s1 s2 o2 E2 W).
    apply in_app_or in Hi. destruct Hi as [Hi|Hi]; [contradiction | exact Hi].
Qed.

(** C3 (amended): let unit [u]'s handler set its flag (a completion), with
    the loop at program point [pc s1], and let any interleaving of the loop,
    the handlers, the converters and the UART follow. The flag stays set
    until the loop's next clearing store of that flag. If the handler ran
    outside the flag's clear window (anywhere but between the gate test that
    opened the gate and the clearing store of that flag), a gate opening
    comes before that clearing store, so the completion counts toward the
    next opening. If it ran inside the window, the clearing store comes
    before any gate opening: the completion is overwritten. *)
Theorem signal_counted_unless_in_clear_window :
  forall (cv : sar_unit -> Z -> Q) (u : sar_unit) (s1 s2 s3 : state)
         (tr : list event) (h : list obs),
  step cv (EIsr u) s1 = Some (s2, [OSet u]) ->
  exec (step cv) tr s2 = Some (s3, h) ->
  (~ In (OClear u) h -> flag u s3 = true) /\
  (in_clear_window u (pc s1) = false -> open_before_clear u h = true) /\
  (in_clear_window u (pc s1) = true -> In (OClear u) h -> open_before_clear u h = false).
Proof.
  intros cv u s1 s2 s3 tr h Hs Hx.
  destruct (step_isr_sets_flag cv u s1 s2 Hs) as [Hf Hp].
  split; [|split].
  - intro Hn. exact (exec_flag_persists cv u tr s2 s3 h Hx Hf Hn).
  - intro Hw. rewrite <- Hp in Hw. exact (exec_outside_clear_window cv u tr s2 s3 h Hx Hw).
  - intros Hw Hi. rewrite <- Hp in Hw.
    exact (exec_inside_clear_window cv u tr s2 s3 h Hx Hw Hi).
Qed.

(** SAR0 completes at the gate test, which then opens the gate: the clearing
    store of [sar0_isr_set] comes after the opening. *)
Lemma signal_counted_unless_in_clear_window_witness :
  let s1 := mkState Check false true 1 0 0 0 false None [] in
  exists s2 s3 h,
    step lin_cal (EIsr SAR0) s1 = Some (s2, [OSet SAR0]) /\
    exec (step lin_cal) [EMain; EMain] s2 = Some (s3, h) /\
    h = [OOpen; OClear SAR0] /\
    (~ In (OClear SAR0) h -> flag SAR0 s3 = true) /\
    (in_clear_window SAR0 (pc s1) = false -> open_before_clear SAR0 h = true) /\
    (in_clear_window SAR0 (pc s1) = true -> In (OClear SAR0) h ->
     open_before_clear SAR0 h = false).
Proof.
  intro s1. do 3 eexists.
  assert (E1 : step lin_cal (EIsr SAR0) s1 =
               Some (mkState Check true true 0 0 0 0 false None [], [OSet SAR0]))
    by (vm_compute; reflexivity).
  assert (E2 : exec (step lin_cal) [EMain; EMain] (mkState Check true true 0 0 0 0 false None []) =
               Some (mkState Clear1 false true 0 0 0 0 false None [], [OOpen; OClear SAR0]))
    by (vm_compute; reflexivity).
  split; [exact E1|]. split; [exact E2|]. split; [reflexivity|].
  exact (signal_counted_unless_in_clear_window lin_cal SAR0 s1 _ _ [EMain; EMain] _ E1 E2).
Defined.

(** C3 (counterexample): in the code as written, SAR0 completes and its
    handler sets [sar0_isr_set] between the gate test and the clearing store;
    at the next gate test that signal is gone although no gate opened since
    it: it was lost, not counted toward the next opening. *)
Lemma signal_lost_in_clear_window :
  ~ (forall (tr : list event) (s : state) (h : list obs),
       exec (step lin_cal) tr init_state = Some (s, h) -> pc s = Check ->
       (set_since SAR0 h = true -> sar0_isr_set s = true) /\
       (set_since SAR1 h = true -> sar1_isr_set s = true)).
Proof.
  intro H. pose proof (H sar0_in_clear_window_trace) as H1. vm_compute in H1.
  specialize (H1 _ _ eq_refl eq_refl). vm_compute in H1.
  destruct H1 as [H2 _]. specialize (H2 eq_refl). discriminate H2.
Qed.

(* ========================================================================= *)
(** * Further properties of the handlers, the DAC code and the loop *)

Lemma trunc_monotone (x y : Q) : (x <= y)%Q -> trunc x <= trunc y.
Proof.
  intro Hxy.
  destruct (trunc_spec x) as [Hxp Hxn], (trunc_spec y) as [Hyp Hyn].
  destruct (Qlt_le_dec x 0) as [Hx|Hx].
  - destruct (Hxn (Qlt_le_weak _ _ Hx)) as [Hx1 Hx2].
    destruct (Qlt_le_dec y 0) as [Hy|Hy].
    + destruct (Hyn (Qlt_le_weak _ _ Hy)) as [_ Hy2].
      assert (H : (inject_Z (trunc x - 1) < inject_Z (trunc y))%Q) by lra.
      rewrite <- Zlt_Qlt in H. lia.
    + destruct (Hyp Hy) as [_ Hy2].
      assert (H1 : (inject_Z (trunc x - 1) < inject_Z 0)%Q)
        by (change (inject_Z 0) with 0%Q; lra).
      assert (H2 : (inject_Z 0 < inject_Z (trunc y + 1))%Q)
        by (change (inject_Z 0) with 0%Q; lra).
      rewrite <- Zlt_Qlt in H1, H2. lia.
  - destruct (Hxp Hx) as [Hx1 _].
    destruct (Hyp (Qle_trans _ _ _ Hx Hxy)) as [_ Hy2].
    assert (H : (inject_Z (trunc x) < inject_Z (trunc y + 1))%Q) by lra.
    rewrite <- Zlt_Qlt in H. lia.
Qed.

(** X1: the DAC code is monotone in the product of the two voltages: a
    product that is not larger never gives a larger code (when both codes
    are defined). *)
Theorem compute_monotone_in_product (p0 p1 q0 q1 : Q) (a b : Z) :
  compute p0 p1 = Some a -> compute q0 q1 = Some b ->
  (p0 * p1 <= q0 * q1)%Q -> a <= b.
Proof.
  unfold compute.
  destruct (fl32 (p0 * p1)) as [p|] eqn:Hp; [|discriminate].
  destruct (fl32 (p * inject_Z SCALING_FACTOR)) as [x|] eqn:Hx; [|discriminate].
  destruct (fl32 (q0 * q1)) as [q|] eqn:Hq; [|discriminate].
  destruct (fl32 (q * inject_Z SCALING_FACTOR)) as [y|] eqn:Hy; [|discriminate].
  intros Ha Hb H.
  destruct (c_int_some x a Ha) as [-> _], (c_int_some y b Hb) as [-> _].
  apply trunc_monotone. apply (fl32_monotone _ _ _ _ Hx Hy).
  apply Qmult_le_compat_r; [apply (fl32_monotone _ _ _ _ Hp Hq H) | discriminate].
Qed.

Lemma compute_monotone_in_product_witness :
  compute 1 2 = Some 744 /\ compute 2 2 = Some 1488 /\ 744 <= 1488.
Proof.
  assert (E1 : compute 1 2 = Some 744) by (vm_compute; reflexivity).
  assert (E2 : compute 2 2 = Some 1488) by (vm_compute; reflexivity).
  split; [exact E1|]. split; [exact E2|].
  apply (compute_monotone_in_product 1 2 2 2 744 1488 E1 E2).
  unfold Qle. simpl. lia.
Defined.

(** X2: the two SAR channels play symmetric roles: swapping the voltages
    gives the same DAC code. *)
Theorem compute_symmetric (p0 p1 : Q) : compute p0 p1 = compute p1 p0.
Proof.
  unfold compute. replace (p0 * p1)%Q with (p1 * p0)%Q; [reflexivity|].
  destruct p0 as [a b], p1 as [c d]. unfold Qmult. cbn [Qnum Qden].
  rewrite (Z.mul_comm a c), (Pos.mul_comm b d). reflexivity.
Qed.

Lemma eos_bit_of_lor (i : Z) : (Z.land (Z.lor i CY_SAR_INTR_EOS) CY_SAR_INTR_EOS =? 0) = false.
Proof. rewrite land_eos_testbit, Z.lor_spec. unfold CY_SAR_INTR_EOS. rewrite orb_true_r. reflexivity. Qed.

Lemma eos_bit_cleared (i : Z) :
  (Z.land (Z.land i (Z.lnot CY_SAR_INTR)) CY_SAR_INTR_EOS =? 0) = true.
Proof.
  rewrite land_eos_testbit, Z.land_spec, Z.lnot_spec by lia.
  unfold CY_SAR_INTR. cbn. rewrite andb_false_r. reflexivity.
Qed.

(** X3: an end of scan followed by the run of that unit's handler leaves
    the unit's flag set, the new result in its result register, no SAR
    interrupt source pending, and the other unit's flag unchanged. *)
Theorem end_of_scan_then_handler : forall (u : sar_unit) (r : Z) (s : state),
  let s' := handler u (hw_end_of_scan u r s) in
  flag u s' = true /\ Z.land (intr u s') CY_SAR_INTR = 0 /\
  (match u with SAR0 => sar0_result s' | SAR1 => sar1_result s' end) = r /\
  (match u with SAR0 => sar1_isr_set s' = sar1_isr_set s
              | SAR1 => sar0_isr_set s' = sar0_isr_set s end).
Proof.
  intros u r s s'. subst s'. destruct u; destruct_state s;
    unfold handler, sar0_interrupt, sar1_interrupt, Cy_SAR_GetInterruptStatus, hw_end_of_scan;
    cbn [intr set_intr sar0_intr sar1_intr pc sar0_isr_set sar1_isr_set];
    rewrite eos_bit_of_lor; unfold Cy_SAR_ClearInterrupt;
    cbn [negb set_intr set_flag flag intr pc sar0_isr_set sar1_isr_set sar0_intr sar1_intr
         sar0_result sar1_result];
    (split; [reflexivity | split; [apply land_clear_mask | split; reflexivity]]).
Qed.

(** X4: a second run of a handler with no new end of scan (a spurious or
    repeated interrupt) changes nothing. *)
Theorem handler_idempotent : forall (u : sar_unit) (s : state),
  handler u (handler u s) = handler u s.
Proof.
  intros u s. destruct u; destruct_state s;
    unfold handler, sar0_interrupt, sar1_interrupt, Cy_SAR_GetInterruptStatus;
    cbn [intr sar0_intr sar1_intr];
    [destruct (negb (Z.land i0 CY_SAR_INTR_EOS =? 0)) |
     destruct (negb (Z.land i1 CY_SAR_INTR_EOS =? 0))];
    unfold Cy_SAR_ClearInterrupt;
    cbn [negb set_intr set_flag flag intr pc sar0_isr_set sar1_isr_set sar0_intr sar1_intr
         sar0_result sar1_result uart_tx_active ctdac_value uart_out];
    rewrite eos_bit_cleared; cbn [negb set_intr intr sar0_intr sar1_intr];
    rewrite <- Z.land_assoc, Z.land_diag; reflexivity.
Qed.

(** X5: the two handlers touch disjoint state, so the order in which they
    run does not matter. *)
Theorem handlers_commute : forall s : state,
  sar0_interrupt (sar1_interrupt s) = sar1_interrupt (sar0_interrupt s).
Proof.
  intro s. destruct_state s.
  unfold sar0_interrupt, sar1_interrupt, Cy_SAR_GetInterruptStatus, Cy_SAR_ClearInterrupt.
  cbv [set_flag set_intr intr negb].
  destruct (Z.land i0 CY_SAR_INTR_EOS =? 0) eqn:E0;
  destruct (Z.land i1 CY_SAR_INTR_EOS =? 0) eqn:E1;
  do 3 (cbn; rewrite ?E0, ?E1); reflexivity.
Qed.

Ltac reduce_handler :=
  cbv [handler sar0_interrupt sar1_interrupt Cy_SAR_GetInterruptStatus
       Cy_SAR_ClearInterrupt hw_end_of_scan set_flag set_intr intr negb];
  repeat match goal with |- context [if ?b then _ else _] => destruct b end;
  cbn.

Lemma handler_keeps_loop (u : sar_unit) (s : state) :
  pc (handler u s) = pc s /\ uart_out (handler u s) = uart_out s.
Proof. destruct u; destruct_state s; reduce_handler; split; reflexivity. Qed.

Lemma hw_end_of_scan_keeps_loop (u : sar_unit) (r : Z) (s : state) :
  pc (hw_end_of_scan u r s) = pc s /\ uart_out (hw_end_of_scan u r s) = uart_out s.
Proof. destruct u; destruct_state s; reduce_handler; split; reflexivity. Qed.

Lemma step_lines_openings (cv : sar_unit -> Z -> Q) (e : event) (s s' : state) (o : list obs) :
  step cv e s = Some (s', o) ->
  (List.length (uart_out s') + in_progress (pc s') =
   List.length (uart_out s) + in_progress (pc s) + List.length (filter is_open o))%nat.
Proof.
  destruct e as [| u r | u |]; cbn [step].
  - intro H. injection H as <- <-. destruct_state s.
    destruct p; unfold main_step, main_obs; cbn [pc uart_out uart_tx_active sar0_isr_set sar1_isr_set];
      repeat match goal with |- context [if ?b then _ else _] => destruct b end;
      cbn [set_pc set_flag pc uart_out in_progress filter is_open];
      rewrite ?length_app; cbn [List.length]; lia.
  - intro H. injection H as <- <-.
    destruct (hw_end_of_scan_keeps_loop u r s) as [-> ->]. cbn. lia.
  - destruct (Z.land (intr u s) CY_SAR_INTR =? 0); [discriminate|].
    intro H. injection H as <- <-.
    destruct (handler_keeps_loop u s) as [-> ->].
    destruct (Z.land (intr u s) CY_SAR_INTR_EOS =? 0); cbn; lia.
  - destruct (uart_tx_active s) eqn:Tx; [|discriminate].
    intro H. injection H as <- <-. destruct_state s. cbn. lia.
Qed.

Lemma exec_lines_openings (cv : sar_unit -> Z -> Q) (tr : list event) :
  forall (s s' : state) (h : list obs), exec (step cv) tr s = Some (s', h) ->
  (List.length (uart_out s') + in_progress (pc s') =
   List.length (uart_out s) + in_progress (pc s) + List.length (filter is_open h))%nat.
Proof.
  induction tr as [| e tr IH]; intros s s' h; cbn [exec].
  - intro H. injection H as <- <-. cbn. lia.
  - destruct (step cv e s) as [[s1 o1] |] eqn:E1; [| discriminate].
    destruct (exec (step cv) tr s1) as [[s2 o2] |] eqn:E2; [| discriminate].
    intro H. injection H as <- <-.
    apply step_lines_openings in E1. apply IH in E2.
    rewrite filter_app, length_app. lia.
Qed.

(** X6: the loop never processes a pair twice nor skips a gate opening:
    along any run from [init_state], the lines printed plus the iteration in
    progress (between the gate opening and the processing step) are exactly
    the gate openings. *)
Theorem lines_match_gate_openings (cv : sar_unit -> Z -> Q) (tr : list event)
    (s : state) (h : list obs) :
  exec (step cv) tr init_state = Some (s, h) ->
  (List.length (uart_out s) + in_progress (pc s) = List.length (filter is_open h))%nat.
Proof. intro H. apply exec_lines_openings in H. exact H. Qed.

Lemma lines_match_gate_openings_witness :
  let s := mkState Check false false 0 0 1000 2482 false (Some 599)
             [printf_fmt telemetry_fmt [lin_cal SAR0 1000; lin_cal SAR1 2482]] in
  let h := [OSet SAR0; OSet SAR1; OOpen; OSet SAR0; OClear SAR0; OClear SAR1] in
  exec (step lin_cal) sar0_in_clear_window_trace init_state = Some (s, h) /\
  (List.length (uart_out s) + in_progress (pc s) = List.length (filter is_open h))%nat.
Proof.
  intros s h.
  assert (E : exec (step lin_cal) sar0_in_clear_window_trace init_state = Some (s, h))
    by (vm_compute; reflexivity).
  split; [exact E | exact (lines_match_gate_openings lin_cal sar0_in_clear_window_trace s h E)].
Defined.

(* ------------------------------------------------------------------------- *)
(** * Reading the telemetry back *)

Import TelemetryRead.

Lemma digit_value_char (d : Z) : 0 <= d <= 9 -> digit_value (digit_char d) = d.
Proof.
  intro H. unfold digit_value, digit_char.
  rewrite nat_ascii_embedding by lia. lia.
Qed.

Lemma dec_digits_value (f : nat) : forall (n : Z) (acc : string),
  0 <= n < 10 ^ Z.of_nat f ->
  digits_value (dec_digits f n acc) = n * 10 ^ Z.of_nat (String.length acc) + digits_value acc.
Proof.
  induction f as [| f IH]; intros n acc Hn; cbn [dec_digits].
  - cbn in Hn. assert (n = 0) by lia. subst n. reflexivity.
  - pose proof (Z.mod_pos_bound n 10 ltac:(lia)) as Hm.
    destruct (n <? 10) eqn:L.
    + apply Z.ltb_lt in L. cbn [digits_value]. rewrite digit_value_char by lia.
      rewrite Z.mod_small by lia. reflexivity.
    + apply Z.ltb_ge in L. rewrite IH.
      * cbn [digits_value String.length]. rewrite digit_value_char by lia.
        rewrite Nat2Z.inj_succ, Z.pow_succ_r by lia.
        pose proof (Z.div_mod n 10 ltac:(lia)). nia.
      * split; [apply Z.div_pos; lia|].
        apply Z.div_lt_upper_bound; [lia|].
        rewrite Nat2Z.inj_succ, Z.pow_succ_r in Hn by lia. lia.
Qed.

Lemma dec_string_fuel (n : Z) : 0 <= n -> n < 10 ^ Z.of_nat (S (Z.to_nat (Z.log2 n))).
Proof.
  intro H. rewrite Nat2Z.inj_succ, Z2Nat.id by apply Z.log2_nonneg.
  apply Z.lt_le_trans with (2 ^ Z.succ (Z.log2 n)).
  - destruct (Z.eq_dec n 0) as [-> | Hn]; [reflexivity|].
    apply Z.log2_spec. lia.
  - apply Z.pow_le_mono_l. pose proof (Z.log2_nonneg n). lia.
Qed.

(** X7: the decimal rendering of the integer part reads back as the number
    it renders. *)
Theorem dec_string_round_trip (n : Z) : 0 <= n -> digits_value (dec_string n) = n.
Proof.
  intro H. unfold dec_string. rewrite dec_digits_value by (split; [lia | apply dec_string_fuel; lia]).
  cbn. lia.
Qed.

Lemma dec_string_round_trip_witness : digits_value (dec_string 2482) = 2482 /\ dec_string 2482 = "2482"%string.
Proof. split; [apply dec_string_round_trip; lia | reflexivity]. Defined.

Lemma span_digits_app (ip r : string) (c : ascii) :
  all_digits ip = true -> is_digit c = false ->
  span_digits (ip ++ String c r) = (ip, String c r).
Proof.
  intros Hip Hc. induction ip as [| x ip IH]; cbn [append span_digits].
  - rewrite Hc. reflexivity.
  - cbn [all_digits] in Hip. apply andb_prop in Hip as [Hx Hip].
    rewrite Hx, (IH Hip). reflexivity.
Qed.

Lemma dec_string_cons (n : Z) : exists x ip, dec_string n = String x ip.
Proof.
  unfold dec_string. cbn [dec_digits].
  destruct (n <? 10); [eexists; eexists; reflexivity|].
  destruct (dec_digits (Z.to_nat (Z.log2 n)) (n / 10) (String (digit_char (n mod 10)) EmptyString))
    as [| x ip] eqn:D; [|eauto].
  exfalso. revert D. apply dec_digits_nonempty. discriminate.
Qed.

Lemma hundredths_digits (c : Z) :
  0 <= c -> c / 100 * 100 + c / 10 mod 10 * 10 + c mod 10 = c.
Proof.
  intro H.
  pose proof (Z.div_mod c 10 ltac:(lia)) as H1.
  pose proof (Z.div_mod (c / 10) 10 ltac:(lia)) as H2.
  rewrite Z.div_div in H2 by lia. change (10 * 10) with 100 in H2. lia.
Qed.

(** The unsigned part of a [%.2f] rendering of [c] hundredths. *)
Definition render_hundredths (c : Z) : string :=
  dec_string (c / 100) ++ "." ++
    String (digit_char (c / 10 mod 10)) (String (digit_char (c mod 10)) EmptyString).

Lemma read_unsigned2_render (c : Z) :
  0 <= c -> read_unsigned2 (render_hundredths c) = Some (c # 100)%Q.
Proof.
  intro H. unfold read_unsigned2, render_hundredths. cbn [append].
  rewrite span_digits_app by (try reflexivity; apply dec_digits_all_digits; reflexivity).
  destruct (dec_string_cons (c / 100)) as (x & ip & D). rewrite D.
  rewrite (is_digit_char (c / 10)), (is_digit_char c). cbn [Ascii.eqb andb].
  rewrite <- D, !digit_value_char by (pose proof (Z.mod_pos_bound (c / 10) 10); pose proof (Z.mod_pos_bound c 10); lia).
  rewrite dec_string_round_trip by (apply Z.div_pos; lia).
  rewrite hundredths_digits by exact H. reflexivity.
Qed.

Lemma fmt2_render (v : Q) :
  fmt2 v = ((if Z.ltb (Qnum v) 0 then "-" else "") ++
            render_hundredths (round_half_even (Z.abs (Qnum v) * 100) (Qden v)))%string.
Proof. reflexivity. Qed.

Lemma fmt2_read_back_bound (v : Q) :
  exists w, read_fixed2 (fmt2 v) = Some w /\ (Qabs (w - v) <= 1 # 200)%Q.
Proof.
  rewrite fmt2_render. destruct v as [num den]. cbn [Qnum Qden].
  set (c := round_half_even (Z.abs num * 100) den).
  destruct (round_half_even_spec (Z.abs num * 100) den ltac:(lia)) as [Hc Herr].
  fold c in Hc, Herr. rewrite Z.abs_le in Herr.
  destruct (num <? 0) eqn:Hs; [apply Z.ltb_lt in Hs | apply Z.ltb_ge in Hs].
  - exists (- (c # 100))%Q. split.
    + cbn [append]. unfold read_fixed2. change (Ascii.eqb "-" "-") with true.
      cbv beta iota. rewrite read_unsigned2_render by exact Hc. reflexivity.
    + apply Qabs_Qle_condition. rewrite Z.abs_neq in Herr by lia.
      unfold Qle, Qminus, Qplus, Qopp; cbn [Qnum Qden]; rewrite ?Pos2Z.inj_mul; split; nia.
  - exists (c # 100)%Q. split.
    + cbn [append]. unfold render_hundredths.
      destruct (dec_string_cons (c / 100)) as (x & ip & D). rewrite D.
      cbn [append read_fixed2].
      assert (Hx : is_digit x = true).
      { pose proof (dec_digits_all_digits (S (Z.to_nat (Z.log2 (c / 100)))) (c / 100) EmptyString eq_refl) as A.
        fold (dec_string (c / 100)) in A. rewrite D in A. cbn in A. apply andb_prop in A. tauto. }
      destruct (Ascii.eqb x "-"%char) eqn:E.
      * apply Ascii.eqb_eq in E. subst x. discriminate Hx.
      * pose proof (read_unsigned2_render c Hc) as R. unfold render_hundredths in R.
        rewrite D in R. cbn [append] in R. exact R.
    + apply Qabs_Qle_condition. rewrite Z.abs_eq in Herr by lia.
      unfold Qle, Qminus, Qplus, Qopp; cbn [Qnum Qden]; rewrite ?Pos2Z.inj_mul; split; nia.
Qed.

(** X8: every [%.2f] rendering of the telemetry reads back as a number, and
    that number is within half a hundredth of the voltage printed. *)
Theorem fmt2_reads_back (v : Q) :
  exists w, read_fixed2 (fmt2 v) = Some w /\ (Qabs (w - v) <= 1 # 200)%Q.
Proof. apply fmt2_read_back_bound. Qed.

(* ------------------------------------------------------------------------- *)
(** * Start-up *)

Import Startup.

Section StartupSteps.

Variable ok : call -> bool.
Variable ndebug : bool.

Lemma bind_assoc {A B C} (m : M A) (f : A -> M B) (k : B -> M C) (l : list call) :
  bind (bind m f) k l = bind m (fun a => bind (f a) k) l.
Proof. unfold bind. destruct (m l) as [[a |] l']; reflexivity. Qed.

Lemma bind_checked {B} (c : call) (k : unit -> M B) (l : list call) :
  bind (checked ok ndebug c) k l =
  if ok c || ndebug then k tt (l ++ [c])%list else (None, (l ++ [c])%list).
Proof. unfold checked, bind, invoke, ret, CY_ASSERT. destruct (ok c), ndebug; reflexivity. Qed.

Lemma bind_unchecked {B} (c : call) (k : unit -> M B) (l : list call) :
  bind (unchecked ok c) k l = k tt (l ++ [c])%list.
Proof. reflexivity. Qed.

Lemma run_unchecked (c : call) (l : list call) :
  unchecked ok c l = (Some tt, (l ++ [c])%list).
Proof. reflexivity. Qed.

Lemma bind_printf_all {B} (ts : list string) (k : unit -> M B) (l : list call) :
  bind (printf_all ok ts) k l = k tt (l ++ map Printf ts)%list.
Proof.
  revert l. induction ts as [| t ts IH]; intro l; cbn [printf_all map].
  - rewrite app_nil_r. reflexivity.
  - rewrite bind_assoc, bind_unchecked, IH, <- app_assoc. reflexivity.
Qed.

End StartupSteps.

(** Runs start-up one driver call at a time. *)
Ltac run_startup :=
  unfold main_startup, init_analog_resources;
  repeat (rewrite ?bind_assoc, ?bind_checked, ?bind_unchecked, ?bind_printf_all, ?run_unchecked;
          cbv beta).

(** Splits on the result of each checked call. *)
Ltac split_checks ok :=
  rewrite ?orb_true_r, ?orb_false_r;
  repeat match goal with |- context [if ok ?c then _ else _] => destruct (ok c) eqn:? end;
  cbv iota.

Ltac solve_in := repeat first [left; reflexivity | right].

(** X9: in a debug build, start-up reaches the main loop exactly when every
    call whose result it checks succeeds; the result of [Cy_SysInt_Init]
    and of the enabling calls plays no part. *)
Theorem startup_completes_iff_checks_pass (ok : call -> bool) :
  fst (main_startup ok false []) = Some tt <-> forallb ok checked_calls = true.
Proof.
  run_startup. unfold checked_calls. cbn [forallb].
  split_checks ok; split; intro H; (reflexivity || discriminate).
Qed.

(** X10: in a debug build, a halted start-up stopped at a checked call that
    failed (the last call made), before the interrupts were enabled and
    before the first scan was triggered. *)
Theorem startup_halt_at_failed_check (ok : call -> bool) :
  fst (main_startup ok false []) = None ->
  exists c, hd_error (rev (snd (main_startup ok false []))) = Some c /\
    In c checked_calls /\ ok c = false /\
    ~ In Enable_irq (snd (main_startup ok false [])) /\
    ~ In Cy_TCPWM_TriggerStart_Single (snd (main_startup ok false [])).
Proof.
  run_startup. split_checks ok; cbn -[append banner];
    intro H; try discriminate H;
    eexists; (split; [reflexivity|]); (split; [solve_in|]); (split; [assumption|]);
    split; intro Hin; repeat (destruct Hin as [Hin | Hin]; [discriminate Hin|]); exact Hin.
Qed.

Lemma startup_halt_at_failed_check_witness :
  let ok := fun c => match c with Cy_SAR_Init SAR1 => false | _ => true end in
  fst (main_startup ok false []) = None /\
  hd_error (rev (snd (main_startup ok false []))) = Some (Cy_SAR_Init SAR1) /\
  exists c, hd_error (rev (snd (main_startup ok false []))) = Some c /\
    In c checked_calls /\ ok c = false /\
    ~ In Enable_irq (snd (main_startup ok false [])) /\
    ~ In Cy_TCPWM_TriggerStart_Single (snd (main_startup ok false [])).
Proof.
  intro ok. split; [reflexivity|]. split; [reflexivity|].
  apply startup_halt_at_failed_check. reflexivity.
Defined.

(** X11: in a build with [NDEBUG], [CY_ASSERT] does nothing: start-up
    always reaches the main loop, after every call of a full start-up, even
    when a checked initialisation fails. *)
Theorem startup_release_ignores_failures (ok : call -> bool) :
  main_startup ok true [] = (Some tt, full_log).
Proof.
  run_startup. split_checks ok. reflexivity.
Qed.

(** X12: start-up makes its calls in one fixed order: the calls made by any
    run, halted or not, are a prefix of those of a full start-up. *)
Theorem startup_log_prefix (ok : call -> bool) (ndebug : bool) :
  exists rest, (snd (main_startup ok ndebug []) ++ rest)%list = full_log.
Proof.
  run_startup. destruct ndebug; split_checks ok;
    match goal with
    | |- exists rest, (snd (_, ?L) ++ rest)%list = _ => exists (skipn (List.length L) full_log)
    end; reflexivity.
Qed.

(** X13: when start-up reaches the main loop, its last two calls enable the
    interrupts and then trigger the first scan; by then both SAR interrupt
    sources are unmasked, both handlers installed, both NVIC lines enabled,
    the CTDAC enabled and the trigger counter running. *)
Theorem startup_interrupts_ready_before_trigger (ok : call -> bool) (ndebug : bool) :
  fst (main_startup ok ndebug []) = Some tt ->
  exists pre, snd (main_startup ok ndebug []) = (pre ++ [Enable_irq; Cy_TCPWM_TriggerStart_Single])%list /\
    In (Cy_SAR_SetInterruptMask SAR0 CY_SAR_INTR) pre /\
    In (Cy_SAR_SetInterruptMask SAR1 CY_SAR_INTR) pre /\
    In (Cy_SysInt_Init SAR0) pre /\ In (Cy_SysInt_Init SAR1) pre /\
    In (NVIC_EnableIRQ SAR0) pre /\ In (NVIC_EnableIRQ SAR1) pre /\
    In Cy_CTDAC_Enable pre /\ In Cy_TCPWM_Counter_Enable pre.
Proof.
  run_startup. destruct ndebug; split_checks ok; cbn -[append banner]; intro H; try discriminate H;
    match goal with |- exists pre, ?L = _ /\ _ => exists (removelast (removelast L)) end;
    (split; [reflexivity|]); cbn -[append]; repeat split; solve_in.
Qed.

Lemma startup_interrupts_ready_before_trigger_witness :
  fst (main_startup (fun _ => true) false []) = Some tt /\
  exists pre, snd (main_startup (fun _ => true) false []) =
      (pre ++ [Enable_irq; Cy_TCPWM_TriggerStart_Single])%list /\
    In (Cy_SAR_SetInterruptMask SAR0 CY_SAR_INTR) pre /\
    In (Cy_SAR_SetInterruptMask SAR1 CY_SAR_INTR) pre /\
    In (Cy_SysInt_Init SAR0) pre /\ In (Cy_SysInt_Init SAR1) pre /\
    In (NVIC_EnableIRQ SAR0) pre /\ In (NVIC_EnableIRQ SAR1) pre /\
    In Cy_CTDAC_Enable pre /\ In Cy_TCPWM_Counter_Enable pre.
Proof.
  split; [reflexivity|].
  apply (startup_interrupts_ready_before_trigger (fun _ => true) false). reflexivity.
Defined.

(* ------------------------------------------------------------------------- *)
(** * Outputs of the loop *)

Lemma handler_keeps_outputs (u : sar_unit) (s : state) :
  ctdac_value (handler u s) = ctdac_value s /\ uart_out (handler u s) = uart_out s.
Proof. destruct u; destruct_state s; reduce_handler; split; reflexivity. Qed.

Lemma hw_end_of_scan_keeps_outputs (u : sar_unit) (r : Z) (s : state) :
  ctdac_value (hw_end_of_scan u r s) = ctdac_value s /\
  uart_out (hw_end_of_scan u r s) = uart_out s.
Proof. destruct u; destruct_state s; reduce_handler; split; reflexivity. Qed.

(** X14: the DAC and the UART are written by the processing step of the loop
    only: no interrupt handler, end of scan, end of transfer or other
    program point of the loop changes what the DAC outputs or what has been
    printed. *)
Theorem only_processing_writes_outputs (cv : sar_unit -> Z -> Q) (e : event)
    (s s' : state) (o : list obs) :
  step cv e s = Some (s', o) ->
  (ctdac_value s' <> ctdac_value s \/ uart_out s' <> uart_out s) ->
  e = EMain /\ pc s = Process.
Proof.
  intros H Hch. destruct e as [| u r | u |]; cbn [step] in H.
  - injection H as <- <-. split; [reflexivity|].
    destruct_state s. destruct p; [..| reflexivity]; exfalso; unfold main_step in Hch;
      cbn [pc uart_tx_active sar0_isr_set sar1_isr_set] in Hch;
      repeat match type of Hch with context [if ?b then _ else _] => destruct b end;
      cbn in Hch; tauto.
  - injection H as <- <-. destruct (hw_end_of_scan_keeps_outputs u r s). tauto.
  - destruct (Z.land (intr u s) CY_SAR_INTR =? 0); [discriminate|].
    injection H as <- <-. destruct (handler_keeps_outputs u s). tauto.
  - destruct (uart_tx_active s); [|discriminate].
    injection H as <- <-. destruct_state s. cbn in Hch. tauto.
Qed.

Lemma only_processing_writes_outputs_witness :
  let s := mkState Process false false 0 0 1241 2482 false None [] in
  step lin_cal EMain s =
    Some (mkState Drain false false 0 0 1241 2482 true (Some 744)
            [printf_fmt telemetry_fmt [lin_cal SAR0 1241; lin_cal SAR1 2482]], []) /\
  (EMain = EMain /\ pc s = Process).
Proof.
  intro s. split; [vm_compute; reflexivity|].
  apply (only_processing_writes_outputs lin_cal EMain s
           (mkState Drain false false 0 0 1241 2482 true (Some 744)
              [printf_fmt telemetry_fmt [lin_cal SAR0 1241; lin_cal SAR1 2482]]) []).
  - vm_compute. reflexivity.
  - left. vm_compute. discriminate.
Defined.

(* ------------------------------------------------------------------------- *)
(** * The telemetry line *)

Import TelemetryRead.

(** C9: every step of the system that prints a line is a processing step
    of the loop, and the line it appends is
    ["SAR0 input: <v0>V \t SAR1 input: <v1>V\r\n"], where [v0] and [v1] are
    the values [Cy_SAR_CountsTo_Volts] gives for the two SAR results; both
    are rendered with a sign when negative, an integer part, a point and
    exactly two decimals, and each rendering reads back as a number within
    half a hundredth of its value. *)
Theorem telemetry_line_format :
  forall (cv : sar_unit -> Z -> Q) (e : event) (s s' : state) (o : list obs),
  step cv e s = Some (s', o) -> uart_out s' <> uart_out s ->
  e = EMain /\ pc s = Process /\
  uart_out s' =
    uart_out s ++ [("SAR0 input: " ++ fmt2 (cv SAR0 (sar0_result s)) ++ "V " ++ TAB
                    ++ " SAR1 input: " ++ fmt2 (cv SAR1 (sar1_result s)) ++ "V" ++ CRLF)%string] /\
  two_decimals (fmt2 (cv SAR0 (sar0_result s))) /\
  two_decimals (fmt2 (cv SAR1 (sar1_result s))) /\
  (exists w0 w1 : Q,
     read_fixed2 (fmt2 (cv SAR0 (sar0_result s))) = Some w0 /\
     read_fixed2 (fmt2 (cv SAR1 (sar1_result s))) = Some w1 /\
     (Qabs (w0 - cv SAR0 (sar0_result s)) <= 1 # 200)%Q /\
     (Qabs (w1 - cv SAR1 (sar1_result s)) <= 1 # 200)%Q).
Proof.
  intros cv e s s' o H Hd.
  assert (Hp : e = EMain /\ pc s = Process /\ s' = main_step cv s).
  { destruct e as [|u r|u|]; cbn [step] in H.
    - injection H as <- _. split; [reflexivity|]. split; [|reflexivity].
      destruct_state s; destruct p; cbn in Hd |- *; try reflexivity;
        repeat match goal with H : context [if ?b then _ else _] |- _ => destruct b end;
        cbn in Hd; congruence.
    - injection H as <- _. exfalso. apply Hd, hw_end_of_scan_keeps_outputs.
    - destruct (Z.land (intr u s) CY_SAR_INTR =? 0); [discriminate|].
      injection H as <- _. exfalso. apply Hd, handler_keeps_outputs.
    - destruct (uart_tx_active s); [|discriminate].
      injection H as <- _. exfalso. apply Hd. destruct_state s. reflexivity. }
  destruct Hp as (-> & Hpc & ->). split; [reflexivity|]. split; [exact Hpc|].
  destruct (fmt2_read_back_bound (cv SAR0 (sar0_result s))) as (w0 & R0 & B0).
  destruct (fmt2_read_back_bound (cv SAR1 (sar1_result s))) as (w1 & R1 & B1).
  split; [|split; [apply fmt2_two_decimals|split; [apply fmt2_two_decimals|eauto 6]]].
  destruct_state s. cbn in Hpc. subst p. reflexivity.
Qed.

Lemma telemetry_line_format_witness :
  step lin_cal EMain processing_state =
    Some (main_step lin_cal processing_state, main_obs processing_state) /\
  uart_out (main_step lin_cal processing_state) <> uart_out processing_state /\
  (EMain = EMain /\ pc processing_state = Process /\
   uart_out (main_step lin_cal processing_state) =
     uart_out processing_state ++
       [("SAR0 input: " ++ fmt2 (lin_cal SAR0 (sar0_result processing_state)) ++ "V " ++ TAB
         ++ " SAR1 input: " ++ fmt2 (lin_cal SAR1 (sar1_result processing_state)) ++ "V"
         ++ CRLF)%string] /\
   two_decimals (fmt2 (lin_cal SAR0 (sar0_result processing_state))) /\
   two_decimals (fmt2 (lin_cal SAR1 (sar1_result processing_state))) /\
   (exists w0 w1 : Q,
      read_fixed2 (fmt2 (lin_cal SAR0 (sar0_result processing_state))) = Some w0 /\
      read_fixed2 (fmt2 (lin_cal SAR1 (sar1_result processing_state))) = Some w1 /\
      (Qabs (w0 - lin_cal SAR0 (sar0_result processing_state)) <= 1 # 200)%Q /\
      (Qabs (w1 - lin_cal SAR1 (sar1_result processing_state)) <= 1 # 200)%Q)).
Proof.
  assert (E : step lin_cal EMain processing_state =
              Some (main_step lin_cal processing_state, main_obs processing_state))
    by reflexivity.
  assert (D : uart_out (main_step lin_cal processing_state) <> uart_out processing_state)
    by (cbn [main_step processing_state pc uart_out]; discriminate).
  split; [exact E|]. split; [exact D|].
  exact (telemetry_line_format lin_cal EMain processing_state _ _ E D).
Defined.
